(** * juju: entity names, block-device paths, the HTTP storage backend,
      leadership parameters, leases and workers

    A shallow embedding of the Go sources:
    - [state/api] client: [MachineEntityName], [UnitEntityName], [EntityName];
    - [storage]: [BlockDevicePath];
    - [httpstorage]: [storageBackend], [ServeHTTP], [authorised] and handlers;
    - [params]: the leadership bulk request and response records;
    together with models of the leadership lease coordinator and of the
    worker execution engine, which the design document describes. *)

From Stdlib Require Import ZArith Ascii String Floats.
From stdpp Require Import gmap strings list fin_maps pretty.

Local Open Scope string_scope.

(* ===================================================================== *)
(** ** Go standard library: the string and path functions the code calls *)
(* ===================================================================== *)

Module GoStrings.

(** [strings.HasPrefix(s, prefix)]. *)
Fixpoint HasPrefix (s prefix : string) : bool :=
  match prefix, s with
  | EmptyString, _ => true
  | String _ _, EmptyString => false
  | String p prefix', String c s' => Ascii.eqb c p && HasPrefix s' prefix'
  end.

(** The scan of [strings.Replace] for a non-empty pattern: the leftmost
    match is replaced, the scan resumes after it (matches do not overlap),
    and [n] counts the replacements still allowed (negative: no limit).
    [skip] is the number of bytes of a matched pattern still to be
    dropped. *)
Fixpoint replaceFrom (old new : string) (n : Z) (skip : nat) (s : string)
  : string :=
  match s with
  | EmptyString => EmptyString
  | String c s' =>
      match skip with
      | S k => replaceFrom old new n k s'
      | O =>
          if negb (n =? 0)%Z && HasPrefix s old
          then new +:+ replaceFrom old new (n - 1) (String.length old - 1) s'
          else String c (replaceFrom old new n 0 s')
      end
  end.

(** [strings.Replace(s, old, new, n)] for a non-empty [old].  With an
    empty [old] Go inserts [new] around every UTF-8 sequence; no caller
    here does that, and this model leaves [s] as it is in that case. *)
Definition Replace (s old new : string) (n : Z) : string :=
  if String.eqb old new || (n =? 0)%Z then s
  else match old with
       | EmptyString => s
       | String _ _ => replaceFrom old new n 0 s
       end.

(** [fmt.Sprintf(format, arg)] for a format with one [%s] verb and a
    string argument. *)
Fixpoint Sprintf (format arg : string) : string :=
  match format with
  | EmptyString => EmptyString
  | String c rest =>
      match rest with
      | String d rest' =>
          if Ascii.eqb c "%" && Ascii.eqb d "s" then arg +:+ rest'
          else String c (Sprintf rest arg)
      | EmptyString => String c EmptyString
      end
  end.

(** A string with every byte changed by [f]. *)
Fixpoint mapBytes (f : ascii → ascii) (s : string) : string :=
  match s with
  | EmptyString => EmptyString
  | String c s' => String (f c) (mapBytes f s')
  end.

(** [strings.HasSuffix(s, suffix)]. *)
Definition HasSuffix (s suffix : string) : bool :=
  (String.length suffix <=? String.length s)%nat
  && String.eqb
       (substring (String.length s - String.length suffix)
          (String.length suffix) s)
       suffix.

(** The slice expression [s[i:j]]; [None] is the run-time panic of a
    slice out of range. *)
Definition slice (s : string) (i j : nat) : option string :=
  if (i <=? j)%nat && (j <=? String.length s)%nat
  then Some (substring i (j - i) s)
  else None.

(** [strings.Join(elems, sep)]. *)
Fixpoint Join (elems : list string) (sep : string) : string :=
  match elems with
  | [] => EmptyString
  | [e] => e
  | e :: rest => e +:+ sep +:+ Join rest sep
  end.

(** The components of a path between its separators:
    [strings.Split(s, "/")]. *)
Fixpoint splitSlash (s : string) : list string :=
  match s with
  | EmptyString => [EmptyString]
  | String c s' =>
      if Ascii.eqb c "/" then EmptyString :: splitSlash s'
      else match splitSlash s' with
           | h :: t => String c h :: t
           | [] => [String c EmptyString]
           end
  end.

End GoStrings.

Module Filepath.
Import GoStrings.

(** One step of [filepath.Clean] on the stack of kept components (top
    first): empty and [.] components are dropped, [..] removes the last
    kept component, stays at the root of a rooted path, and is kept at the
    front of a relative one. *)
Definition cleanStep (rooted : bool) (stack : list string) (comp : string)
  : list string :=
  if String.eqb comp "" || String.eqb comp "." then stack
  else if String.eqb comp ".." then
    match stack with
    | top :: rest =>
        if rooted || negb (String.eqb top "..") then rest else comp :: stack
    | [] => if rooted then [] else [comp]
    end
  else comp :: stack.

(** [filepath.Clean(path)] on Unix: the shortest path equivalent to [path]
    by purely lexical processing. *)
Definition Clean (path : string) : string :=
  match path with
  | EmptyString => "."
  | String c _ =>
      let rooted := Ascii.eqb c "/" in
      let kept := rev (fold_left (cleanStep rooted) (splitSlash path) []) in
      if rooted then "/" +:+ GoStrings.Join kept "/"
      else match kept with
           | [] => "."
           | _ => GoStrings.Join kept "/"
           end
  end.

(** [filepath.Join(elem...)]: the elements from the first non-empty one
    on, joined by the separator and cleaned; the empty string when all are
    empty. *)
Fixpoint Join (elem : list string) : string :=
  match elem with
  | [] => EmptyString
  | e :: rest =>
      if String.eqb e "" then Join rest
      else Clean (GoStrings.Join elem "/")
  end.

End Filepath.

(* ===================================================================== *)
(** ** state/api: entity names *)
(* ===================================================================== *)

Module Api.
Import GoStrings.

(** [rpcMachine] and [rpcUnit]: the documents the server returns; of
    their fields the client code reads these. *)
Record rpcMachine := { InstanceId : string }.
Record rpcUnit := { DeployerName : string }.

(** [Machine] and [Unit]; the [st] pointer is the state all entities of
    one connection share. *)
Record Machine := { id : string; mdoc : rpcMachine }.
Record Unit := { name : string; udoc : rpcUnit }.

Definition Id (m : Machine) : string := id m.

Definition MachineEntityName (id : string) : string :=
  Sprintf "machine-%s" id.

Definition UnitEntityName (unitName : string) : string :=
  "unit-" +:+ Replace unitName "/" "-" (-1).

(** What [UnitEntityName] does to one byte of the unit name. *)
Definition slashToDash (c : ascii) : ascii :=
  if Ascii.eqb c "/" then "-"%char else c.

(** The entities of a state, with the [EntityName] method of each. *)
Inductive Entity :=
  | EMachine (m : Machine)
  | EUnit (u : Unit).

Definition EntityName (e : Entity) : string :=
  match e with
  | EMachine m => MachineEntityName (Id m)
  | EUnit u => UnitEntityName (name u)
  end.

(** Two entities of one state are the same entity when they are of the
    same kind and carry the same id or name. *)
Definition sameEntity (e1 e2 : Entity) : Prop :=
  match e1, e2 with
  | EMachine m1, EMachine m2 => id m1 = id m2
  | EUnit u1, EUnit u2 => name u1 = name u2
  | _, _ => False
  end.

(** The byte [b] does not occur in [s]. *)
Fixpoint noByte (b : ascii) (s : string) : bool :=
  match s with
  | EmptyString => true
  | String c s' => negb (Ascii.eqb c b) && noByte b s'
  end.

(** A unit name of the form [<service>/<number>]: one slash, and no dash
    after it. *)
Fixpoint serviceSlashNumber (s : string) : bool :=
  match s with
  | EmptyString => false
  | String c s' =>
      if Ascii.eqb c "/" then noByte "/" s' && noByte "-" s'
      else serviceSlashNumber s'
  end.

Definition wellFormed (e : Entity) : Prop :=
  match e with
  | EMachine _ => True
  | EUnit u => serviceSlashNumber (name u) = true
  end.

End Api.

(* ===================================================================== *)
(** ** storage: the path of a block device *)
(* ===================================================================== *)

Module Storage.

(** A Go [error] value: [None] is [nil], [Some msg] an error with that
    message. *)
Definition error := option string.

(** [BlockDevice] is declared elsewhere in the package; [BlockDevicePath]
    reads these two of its fields. *)
Record BlockDevice := { DeviceName : string; Serial : string }.

Definition diskByID : string := "/dev/disk/by-id".
Definition diskByDeviceName : string := "/dev".

Definition BlockDevicePath (device : BlockDevice) : string * error :=
  if negb (String.eqb (Serial device) "") then
    (Filepath.Join [diskByID; Serial device], None)
  else if negb (String.eqb (DeviceName device) "") then
    (Filepath.Join [diskByDeviceName; DeviceName device], None)
  else ("", Some "could not determine path for block device").

(** A path element that [filepath.Clean] keeps as it is: not empty, not
    [.] or [..], and without a separator. *)
Definition plainName (s : string) : bool :=
  negb (String.eqb s "") && negb (String.eqb s ".")
  && negb (String.eqb s "..") && Api.noByte "/" s.

End Storage.

(* ===================================================================== *)
(** ** params: the leadership bulk requests and responses *)
(* ===================================================================== *)

Module Params.

(** Each struct is a module of its own, so that its fields keep their
    names: [ClaimLeadershipParams.t] is the struct and
    [ClaimLeadershipParams.ServiceTag] its field. *)

(** Modelled from the spec: [Error] is declared elsewhere in the package;
    an error of the remote-call facade carries a message and the
    structured wire code by which it is classified.  A [*Error] field
    is an [option Error.t]. *)
Module Error.
Record t := { Message : string; Code : string }.
End Error.

(** [Settings] is [map[string]string]. *)
Abbreviation Settings := (gmap string string).

Module ClaimLeadershipParams.
Record t := { ServiceTag : string; UnitTag : string }.
End ClaimLeadershipParams.

Module ClaimLeadershipBulkParams.
Record t := { Params : list ClaimLeadershipParams.t }.
End ClaimLeadershipBulkParams.

Module ClaimLeadershipResults.
Record t :=
  { ServiceTag : string;
    ClaimDurationInSec : float;
    Error : option Error.t }.
End ClaimLeadershipResults.

Module ClaimLeadershipBulkResults.
Record t := { Results : list ClaimLeadershipResults.t }.
End ClaimLeadershipBulkResults.

Module ReleaseLeadershipParams.
Record t := { ServiceTag : string; UnitTag : string }.
End ReleaseLeadershipParams.

Module ReleaseLeadershipBulkParams.
Record t := { Params : list ReleaseLeadershipParams.t }.
End ReleaseLeadershipBulkParams.

(** [ErrorResult] and [ErrorResults], declared elsewhere in the package:
    a list of [{Error}] records. *)
Module ErrorResult.
Record t := { Error : option Error.t }.
End ErrorResult.

Module ErrorResults.
Record t := { Results : list ErrorResult.t }.
End ErrorResults.

Module ReleaseLeadershipBulkResults := ErrorResults.

Module GetLeadershipSettingsResult.
Record t := { Settings : Settings; Error : option Error.t }.
End GetLeadershipSettingsResult.

Module GetLeadershipSettingsBulkResults.
Record t := { Results : list GetLeadershipSettingsResult.t }.
End GetLeadershipSettingsBulkResults.

Module MergeLeadershipSettingsParam.
Record t := { ServiceTag : string; Settings : Settings }.
End MergeLeadershipSettingsParam.

Module MergeLeadershipSettingsBulkParams.
Record t := { Params : list MergeLeadershipSettingsParam.t }.
End MergeLeadershipSettingsBulkParams.

(** The fields of each record, as a tuple, and the record from them. *)
Definition claimParamsFields (p : ClaimLeadershipParams.t)
  : string * string :=
  (ClaimLeadershipParams.ServiceTag p, ClaimLeadershipParams.UnitTag p).
Definition claimParamsOfFields (f : string * string)
  : ClaimLeadershipParams.t :=
  {| ClaimLeadershipParams.ServiceTag := f.1;
     ClaimLeadershipParams.UnitTag := f.2 |}.

Definition claimResultsFields (r : ClaimLeadershipResults.t)
  : string * float * option Error.t :=
  (ClaimLeadershipResults.ServiceTag r,
   ClaimLeadershipResults.ClaimDurationInSec r,
   ClaimLeadershipResults.Error r).
Definition claimResultsOfFields (f : string * float * option Error.t)
  : ClaimLeadershipResults.t :=
  {| ClaimLeadershipResults.ServiceTag := f.1.1;
     ClaimLeadershipResults.ClaimDurationInSec := f.1.2;
     ClaimLeadershipResults.Error := f.2 |}.

Definition mergeParamFields (p : MergeLeadershipSettingsParam.t)
  : string * Settings :=
  (MergeLeadershipSettingsParam.ServiceTag p,
   MergeLeadershipSettingsParam.Settings p).
Definition mergeParamOfFields (f : string * Settings)
  : MergeLeadershipSettingsParam.t :=
  {| MergeLeadershipSettingsParam.ServiceTag := f.1;
     MergeLeadershipSettingsParam.Settings := f.2 |}.

End Params.

(* ===================================================================== *)
(** ** httpstorage: HTTP access to a storage object *)
(* ===================================================================== *)

Module HttpStorage.
Import GoStrings.

Definition error := option string.

(** [net/http]: the status codes the handlers send. *)
Definition StatusOK : Z := 200.
Definition StatusCreated : Z := 201.
Definition StatusUnauthorized : Z := 401.
Definition StatusNotFound : Z := 404.
Definition StatusMethodNotAllowed : Z := 405.
Definition StatusInternalServerError : Z := 500.

(** [url.Values] and its [Get]: the first value of the key, or the empty
    string. *)
Abbreviation Values := (gmap string (list string)).

Definition Values_Get (v : Values) (key : string) : string :=
  match v !! key with
  | Some (x :: _) => x
  | _ => ""
  end.

(** [url.URL], with [Query()] already parsed, and [http.Request]. *)
Record URL := { Path : string; Query : Values }.

Record Request :=
  { Method : string; Url : URL; ContentLength : Z; Body : string }.

(** [http.ResponseWriter] as the response built so far: the header map,
    the status line once written, and the body. *)
Record ResponseWriter :=
  { header : gmap string (list string);
    status : option Z;
    written : string }.

Definition newResponse : ResponseWriter :=
  {| header := ∅; status := None; written := "" |}.

(** [w.Header().Set(key, value)]; without effect on a response whose
    header is already sent. *)
Definition Header_Set (w : ResponseWriter) (key value : string)
  : ResponseWriter :=
  match status w with
  | Some _ => w
  | None => {| header := <[key := [value]]> (header w);
               status := status w; written := written w |}
  end.

(** [w.WriteHeader(code)]: only the first call counts. *)
Definition WriteHeader (w : ResponseWriter) (code : Z) : ResponseWriter :=
  match status w with
  | Some _ => w
  | None => {| header := header w; status := Some code;
               written := written w |}
  end.

(** [w.Write(data)]: sends the header with status 200 when none was sent. *)
Definition Write (w : ResponseWriter) (data : string) : ResponseWriter :=
  let w' := WriteHeader w StatusOK in
  {| header := header w'; status := status w';
     written := written w' +:+ data |}.

(** [http.Error(w, error, code)]. *)
Definition Error (w : ResponseWriter) (msg : string) (code : Z)
  : ResponseWriter :=
  let w := Header_Set w "Content-Type" "text/plain; charset=utf-8" in
  let w := WriteHeader w code in
  Write w (msg +:+ String "010" "").

(** What [backend.Get] returns on success: the reader, with what
    [ioutil.ReadAll] gives for it. *)
Record ReadCloser := { content : string; readError : error }.

(** The [storage.Storage] interface: each method may fail with an error
    message and may change the store. *)
Class StorageOps (S : Type) := {
  Get : string → S → (ReadCloser + string) * S;
  List : string → S → (list string + string) * S;
  Put : string → string → Z → S → error * S;
  Remove : string → S → error * S
}.

Section Backend.
Context {S : Type} `{StorageOps S}.

Record storageBackend :=
  { backend : S; httpsBaseURL : string; authkey : string }.

(** What a handler leaves: the response and the store, or [None] when it
    panics. *)
Definition served := option (ResponseWriter * S).

Definition authorised (s : storageBackend) (req : Request) : bool :=
  if String.eqb (authkey s) "" then true
  else String.eqb (Values_Get (Query (Url req)) "authkey") (authkey s).

Definition handleHead (s : storageBackend) (w : ResponseWriter)
    (req : Request) : served :=
  if negb (String.eqb (httpsBaseURL s) "") then
    let w := Header_Set w "Location" (httpsBaseURL s +:+ Path (Url req)) in
    Some (WriteHeader w StatusOK, backend s)
  else
    Some (Error w "method HEAD is not supported" StatusMethodNotAllowed,
          backend s).

Definition handleGet (s : storageBackend) (w : ResponseWriter)
    (req : Request) : served :=
  let path := Path (Url req) in
  name ← slice path 1 (String.length path);
  match Get name (backend s) with
  | (inr err, st) => Some (Error w err StatusNotFound, st)
  | (inl readcloser, st) =>
      match readError readcloser with
      | Some err => Some (Error w err StatusInternalServerError, st)
      | None =>
          let w := Header_Set w "Content-Type" "application/octet-stream" in
          Some (Write w (content readcloser), st)
      end
  end.

Definition handleList (s : storageBackend) (w : ResponseWriter)
    (req : Request) : served :=
  let prefix := Path (Url req) in
  prefix ← slice prefix 1 (String.length prefix - 1);
  match List prefix (backend s) with
  | (inr err, st) => Some (Error w err StatusInternalServerError, st)
  | (inl names, st) =>
      let data := GoStrings.Join names (String "010" "") in
      let w := Header_Set w "Content-Type" "application/octet-stream" in
      Some (Write w data, st)
  end.

Definition handlePut (s : storageBackend) (w : ResponseWriter)
    (req : Request) : served :=
  if (ContentLength req <? 0)%Z then
    Some (Error w "missing or invalid Content-Length header"
            StatusInternalServerError, backend s)
  else
    let path := Path (Url req) in
    name ← slice path 1 (String.length path);
    match Put name (Body req) (ContentLength req) (backend s) with
    | (Some err, st) => Some (Error w err StatusInternalServerError, st)
    | (None, st) => Some (WriteHeader w StatusCreated, st)
    end.

Definition handleDelete (s : storageBackend) (w : ResponseWriter)
    (req : Request) : served :=
  if negb (authorised s req) then
    Some (Error w "unauthorised access" StatusUnauthorized, backend s)
  else
    let path := Path (Url req) in
    name ← slice path 1 (String.length path);
    match Remove name (backend s) with
    | (Some err, st) => Some (Error w err StatusInternalServerError, st)
    | (None, st) => Some (WriteHeader w StatusOK, st)
    end.

(** The second [switch] of [ServeHTTP]. *)
Definition dispatch (s : storageBackend) (w : ResponseWriter)
    (req : Request) : served :=
  if String.eqb (Method req) "GET" then
    if HasSuffix (Path (Url req)) "*" then handleList s w req
    else handleGet s w req
  else if String.eqb (Method req) "HEAD" then handleHead s w req
  else if String.eqb (Method req) "PUT" then handlePut s w req
  else if String.eqb (Method req) "DELETE" then handleDelete s w req
  else
    Some (Error w ("method " +:+ Method req +:+ " is not supported")
            StatusMethodNotAllowed, backend s).

Definition ServeHTTP (s : storageBackend) (w : ResponseWriter)
    (req : Request) : served :=
  if String.eqb (Method req) "PUT" || String.eqb (Method req) "DELETE" then
    if negb (String.eqb (httpsBaseURL s) "") || negb (authorised s req) then
      Some (Error w "unauthorised access" StatusUnauthorized, backend s)
    else dispatch s w req
  else dispatch s w req.

End Backend.

Arguments storageBackend S : clear implicits.
Arguments served S : clear implicits.

(** A store in memory: names to contents. *)
Abbreviation memStore := (gmap string string).

#[global] Instance memStoreOps : StorageOps memStore := {|
  Get name st :=
    match st !! name with
    | Some data => (inl {| content := data; readError := None |}, st)
    | None => (inr ("file " +:+ name +:+ " not found"), st)
    end;
  List prefix st :=
    (inl (filter (λ n, HasPrefix n prefix = true) (map fst (map_to_list st))),
     st);
  Put name body len st := (None, <[name := body]> st);
  Remove name st := (None, delete name st)
|}.

(** The status codes the handlers of the backend send. *)
Definition answerCodes : list Z :=
  [StatusOK; StatusCreated; StatusUnauthorized; StatusNotFound;
   StatusMethodNotAllowed; StatusInternalServerError].

(** [net.Listener], as far as [serve] reads it: the address it prints
    and the IP of its TCP address. *)
Record Listener := { Addr : string; IP : string }.

(** [tls.Config], with the fields [ServeTLS] sets; [cert] is the type of
    the parsed server certificate. *)
Record TLSConfig (cert : Type) :=
  { NextProtos : list string;
    Certificates : list cert;
    ClientAuthVerifyIfGiven : bool;
    ClientCAs : list string }.
Arguments NextProtos {cert}.
Arguments Certificates {cert}.
Arguments ClientAuthVerifyIfGiven {cert}.
Arguments ClientCAs {cert}.

Section Serve.
Context {S : Type} `{StorageOps S}.
(** The network: what [net.Listen] and [tls.Listen] answer for an
    address, an error message or a listener. *)
Variable netListen : string → string + Listener.
Variable tlsListen : string → string + Listener.

(** What a successful [serve] has set up: the listener it returns and,
    for every [goServe], the listener with the backend whose [ServeHTTP]
    answers on it.  The backends of one server point to the same
    store. *)
Record Server :=
  { returned : Listener;
    serving : list (Listener * storageBackend S) }.

(** [goServe]: a mux with the backend at [/], served on the listener.
    The mux hands every request of the listener to the backend. *)
Definition goServe (listener : Listener) (backend : storageBackend S)
  : Listener * storageBackend S :=
  (listener, backend).

(** [serve]; [fmt.Errorf] with [%v] prints the message of the error. *)
Definition serve {cert : Type} (addr : string) (stor : S)
    (tlsConfig : option (TLSConfig cert)) (authkey : string)
  : string + Server :=
  match netListen addr with
  | inl err => inl ("cannot start listener: " +:+ err)
  | inr listener =>
      let backend :=
        {| backend := stor; httpsBaseURL := ""; authkey := "" |} in
      match tlsConfig with
      | Some _ =>
          let tlsBackend :=
            {| backend := stor; httpsBaseURL := ""; authkey := authkey |} in
          match tlsListen (Sprintf "[%s]:0" (IP listener)) with
          | inl err => inl ("cannot start TLS listener: " +:+ err)
          | inr tlsListener =>
              let backend :=
                {| backend := stor;
                   httpsBaseURL := Sprintf "https://%s" (Addr tlsListener);
                   authkey := "" |} in
              inr {| returned := listener;
                     serving := [goServe tlsListener tlsBackend;
                                 goServe listener backend] |}
          end
      | None =>
          inr {| returned := listener;
                 serving := [goServe listener backend] |}
      end
  end.

(** [Serve]: no TLS, no auth key. *)
Definition Serve (addr : string) (stor : S) : string + Server :=
  serve (cert := unit) addr stor None "".

(** [ServeTLS].  The certificate steps are those of [cert] and
    [crypto]: [NewServer] makes the server certificate and key from the
    CA's, [X509KeyPair] parses them, [AppendCertsFromPEM] tells whether
    the CA certificate went into the pool.  The expiry passed to
    [NewServer], ten years from now, is left to it. *)
Definition ServeTLS {cert : Type}
    (NewServer : string → string → list string → string + string * string)
    (X509KeyPair : string → string → string + cert)
    (AppendCertsFromPEM : string → bool)
    (addr : string) (stor : S) (caCertPEM caKeyPEM : string)
    (hostnames : list string) (authkey : string) : string + Server :=
  match NewServer caCertPEM caKeyPEM hostnames with
  | inl err => inl err
  | inr (certPEM, keyPEM) =>
      match X509KeyPair certPEM keyPEM with
      | inl err => inl err
      | inr serverCert =>
          if negb (AppendCertsFromPEM caCertPEM) then
            inl "error adding CA certificate to pool"
          else
            let config :=
              {| NextProtos := ["http/1.1"];
                 Certificates := [serverCert];
                 ClientAuthVerifyIfGiven := true;
                 ClientCAs := [caCertPEM] |} in
            serve addr stor (Some config) authkey
      end
  end.

(** A request on one of the server's backends, with the shared store as
    it is now. *)
Definition onStore (b : storageBackend S) (st : S) : storageBackend S :=
  {| backend := st; httpsBaseURL := httpsBaseURL b; authkey := authkey b |}.

End Serve.

Arguments Server S : clear implicits.

(** A network on which every address can be listened on. *)
Definition openNetwork (addr : string) : string + Listener :=
  inr {| Addr := addr; IP := "127.0.0.1" |}.

(** A backend with an auth key over a store with one file, and a DELETE
    request that carries the wrong key. *)
Definition guardedBackend : storageBackend memStore :=
  {| backend := {[ "tools" := "data" ]};
     httpsBaseURL := "";
     authkey := "secret" |}.

Definition deleteWithWrongKey : Request :=
  {| Method := "DELETE";
     Url := {| Path := "/tools"; Query := {[ "authkey" := ["guess"] ]} |};
     ContentLength := 0;
     Body := "" |}.

(** Certificate steps that succeed, and the server [ServeTLS] then
    starts on the open network over the store with one file. *)
Definition madeCertificate (caCertPEM caKeyPEM : string)
    (hostnames : list string) : string + string * string :=
  inr ("server certificate", "server key").

Definition parsedCertificate (certPEM keyPEM : string) : string + unit :=
  inr tt.

Definition tlsServer : Server memStore :=
  {| returned := {| Addr := "127.0.0.1:8040"; IP := "127.0.0.1" |};
     serving :=
       [ ({| Addr := "[127.0.0.1]:0"; IP := "127.0.0.1" |},
          {| backend := {[ "tools" := "data" ]};
             httpsBaseURL := "";
             authkey := "secret" |});
         ({| Addr := "127.0.0.1:8040"; IP := "127.0.0.1" |},
          {| backend := {[ "tools" := "data" ]};
             httpsBaseURL := "https://[127.0.0.1]:0";
             authkey := "" |}) ] |}.

(** A HEAD request, and a PUT request with the right key. *)
Definition headOfTools : Request :=
  {| Method := "HEAD";
     Url := {| Path := "/tools"; Query := ∅ |};
     ContentLength := 0;
     Body := "" |}.

Definition putWithKey : Request :=
  {| Method := "PUT";
     Url := {| Path := "/tools/juju.tgz";
               Query := {[ "authkey" := ["secret"] ]} |};
     ContentLength := 5;
     Body := "juju!" |}.

Definition getOfPut : Request :=
  {| Method := "GET";
     Url := {| Path := "/tools/juju.tgz"; Query := ∅ |};
     ContentLength := 0;
     Body := "" |}.

End HttpStorage.

(* ===================================================================== *)
(** ** The leadership lease coordinator *)
(* ===================================================================== *)

Module Leadership.

(** Modelled from the spec: the error taxonomy of the design document
    (section 7); the coordinator's own code is not among the sources. *)
Inductive LeadershipError :=
  | LeaseHeld
  | NotLeader
  | NotFound
  | Unauthorized
  | Transient
  | Invalid.

#[global] Instance LeadershipError_eq_dec : EqDecision LeadershipError.
Proof. solve_decision. Defined.

(** Modelled from the spec: a [ServiceLeadershipLease]; the ServiceID is
    the key under which the table holds it.  Timestamps and durations
    are whole seconds of the shared clock. *)
Record ServiceLeadershipLease :=
  { HolderUnitID : string; ExpiryTimestamp : Z }.

(** Modelled from the spec: the coordinator's state is a table of leases
    and a table of leader settings, each with one entry per ServiceID. *)
Record Coordinator :=
  { leases : gmap string ServiceLeadershipLease;
    settings : gmap string (gmap string string) }.

Definition initial : Coordinator := {| leases := ∅; settings := ∅ |}.

Definition setLease (st : Coordinator) (svc : string)
    (l : ServiceLeadershipLease) : Coordinator :=
  {| leases := <[svc := l]> (leases st); settings := settings st |}.

Definition clearLease (st : Coordinator) (svc : string) : Coordinator :=
  {| leases := delete svc (leases st); settings := settings st |}.

Definition setSettings (st : Coordinator) (svc : string)
    (m : gmap string string) : Coordinator :=
  {| leases := leases st; settings := <[svc := m]> (settings st) |}.

(** Modelled from the spec: a lease is unexpired at [now] when [now] is
    before its expiry; a lease with an empty holder, or an expired one,
    counts as unheld (expiry is detected lazily, by this test). *)
Definition unexpired (l : ServiceLeadershipLease) (now : Z) : bool :=
  negb (String.eqb (HolderUnitID l) "") && (now <? ExpiryTimestamp l)%Z.

Definition currentLease (st : Coordinator) (now : Z) (svc : string)
  : option ServiceLeadershipLease :=
  match leases st !! svc with
  | Some l => if unexpired l now then Some l else None
  | None => None
  end.

(** Modelled from the spec: the unit that holds the lease of [svc] at
    the instant [now], if any. *)
Definition holder (st : Coordinator) (now : Z) (svc : string)
  : option string :=
  HolderUnitID <$> currentLease st now svc.

Definition holds (st : Coordinator) (now : Z) (svc u : string) : Prop :=
  holder st now svc = Some u.

Section Operations.
(** The cap on the duration of a lease. *)
Variable maxDuration : Z.

(** Modelled from the spec: a well-formed claim (section 7); a request
    with an empty identifier, or with a duration that is zero or less,
    is malformed. *)
Definition wellFormedClaim (svc u : string) (d : Z) : bool :=
  negb (String.eqb svc "") && negb (String.eqb u "") && (0 <? d)%Z.

(** Modelled from the spec: [ClaimLeadership] (sections 4.1 and 7).  A
    malformed request fails with [Invalid] and changes nothing.  For the
    others the three cases of section 4.1: an unheld or expired lease is
    granted until [now + min d maxDuration]; the holder's own claim is a
    renewal, which moves the expiry forward only; a claim against the
    unexpired lease of another unit fails with [LeaseHeld].  The result
    is the duration for which the lease is held from [now]. *)
Definition ClaimLeadership (st : Coordinator) (now : Z) (svc u : string)
    (d : Z) : (Z + LeadershipError) * Coordinator :=
  if negb (wellFormedClaim svc u d) then (inr Invalid, st)
  else
    let fresh := (now + Z.min d maxDuration)%Z in
    match currentLease st now svc with
    | Some l =>
        if String.eqb (HolderUnitID l) u then
          let expiry := Z.max (ExpiryTimestamp l) fresh in
          (inl (expiry - now)%Z,
           setLease st svc {| HolderUnitID := u; ExpiryTimestamp := expiry |})
        else (inr LeaseHeld, st)
    | None =>
        (inl (fresh - now)%Z,
         setLease st svc {| HolderUnitID := u; ExpiryTimestamp := fresh |})
    end.

(** Modelled from the spec: [ReleaseLeadership] (section 4.1).  The
    holder's release clears the lease at once; while the lease is held
    and unexpired, another unit's release fails with [NotLeader]; on an
    unheld or expired lease a release succeeds and changes nothing, so
    that releasing twice looks like releasing once. *)
Definition ReleaseLeadership (st : Coordinator) (now : Z) (svc u : string)
  : option LeadershipError * Coordinator :=
  match currentLease st now svc with
  | Some l =>
      if String.eqb (HolderUnitID l) u then (None, clearLease st svc)
      else (Some NotLeader, st)
  | None => (None, st)
  end.

(** Modelled from the spec: [GetLeadershipSettings] is a read of the
    mapping, empty when nothing was stored. *)
Definition GetLeadershipSettings (st : Coordinator) (svc : string)
  : gmap string string :=
  default ∅ (settings st !! svc).

(** Modelled from the spec: the field-wise merge, one key of [updates]
    at a time: an empty value deletes the key, any other overwrites it. *)
Definition mergeKey (k v : string) (m : gmap string string)
  : gmap string string :=
  if String.eqb v "" then delete k m else <[k := v]> m.

Definition mergeSettings (stored updates : gmap string string)
  : gmap string string :=
  map_fold mergeKey stored updates.

(** Modelled from the spec: [MergeLeadershipSettings] (section 4.1). *)
Definition MergeLeadershipSettings (st : Coordinator) (now : Z)
    (svc u : string) (updates : gmap string string)
  : option LeadershipError * Coordinator :=
  match currentLease st now svc with
  | Some l =>
      if String.eqb (HolderUnitID l) u then
        (None,
         setSettings st svc
           (mergeSettings (GetLeadershipSettings st svc) updates))
      else (Some NotLeader, st)
  | None => (Some NotLeader, st)
  end.

(** Modelled from the spec: the coordinator's operations as labels, and
    the state after one; a lease is changed by claim, release and merge
    calls only. *)
Inductive Op :=
  | OpClaim (svc u : string) (d : Z)
  | OpRelease (svc u : string)
  | OpMerge (svc u : string) (updates : gmap string string).

Definition apply (st : Coordinator) (now : Z) (op : Op) : Coordinator :=
  match op with
  | OpClaim svc u d => (ClaimLeadership st now svc u d).2
  | OpRelease svc u => (ReleaseLeadership st now svc u).2
  | OpMerge svc u updates => (MergeLeadershipSettings st now svc u updates).2
  end.

(** Modelled from the spec: the states the coordinator reaches, from
    the empty tables, by its operations, each at the clock reading of its
    call. *)
Inductive reachable : Coordinator → Prop :=
  | reach_initial : reachable initial
  | reach_apply st now op :
      reachable st → reachable (apply st now op).

Definition run (st : Coordinator) (calls : list (Z * Op)) : Coordinator :=
  fold_left (λ st c, apply st c.1 c.2) calls st.

(** Modelled from the spec: what the callers have been told.  A grant
    is a successful claim, good until [now] plus the granted duration. *)
Record Grant := { grantService : string; grantUnit : string; grantUntil : Z }.

Definition releasedBy (svc u : string) (g : Grant) : bool :=
  String.eqb (grantService g) svc && String.eqb (grantUnit g) u.

(** The grants after one more call: a successful claim adds its grant, a
    successful release withdraws the grants of that unit for that
    service. *)
Definition record (st : Coordinator) (grants : list Grant) (now : Z)
    (op : Op) : list Grant :=
  match op with
  | OpClaim svc u d =>
      match (ClaimLeadership st now svc u d).1 with
      | inl granted =>
          {| grantService := svc; grantUnit := u;
             grantUntil := now + granted |} :: grants
      | inr _ => grants
      end
  | OpRelease svc u =>
      match (ReleaseLeadership st now svc u).1 with
      | None => filter (λ g, releasedBy svc u g = false) grants
      | Some _ => grants
      end
  | OpMerge _ _ _ => grants
  end.

Fixpoint history (st : Coordinator) (grants : list Grant)
    (calls : list (Z * Op)) : list Grant :=
  match calls with
  | [] => grants
  | c :: rest => history (apply st c.1 c.2) (record st grants c.1 c.2) rest
  end.

(** Modelled from the spec: the winner set (section 8), the units that,
    by the answers they got, lead [svc] at the instant [t]. *)
Definition winning (svc : string) (t : Z) (g : Grant) : bool :=
  String.eqb (grantService g) svc && (t <? grantUntil g)%Z.

Definition winners (calls : list (Z * Op)) (svc : string) (t : Z)
  : gset string :=
  list_to_set
    (grantUnit <$> filter (λ g, winning svc t g = true)
                     (history initial [] calls)).

(** Modelled from the spec: calls linearized along the shared monotonic
    clock; their readings never decrease from [from] on and end at or
    before [t]. *)
Fixpoint clockOrdered (from : Z) (calls : list (Z * Op)) (t : Z) : bool :=
  match calls with
  | [] => (from <=? t)%Z
  | c :: rest => (from <=? c.1)%Z && clockOrdered c.1 rest t
  end.

(** A grant is backed by the table at [now] when it names a unit and,
    unless it is over, the lease of its service is that unit's and lasts
    at least as long. *)
Definition backed (st : Coordinator) (now : Z) (g : Grant) : Prop :=
  grantUnit g ≠ "" ∧
  ((now < grantUntil g)%Z →
   ∃ l, leases st !! grantService g = Some l ∧
        HolderUnitID l = grantUnit g ∧
        (grantUntil g ≤ ExpiryTimestamp l)%Z).

(** The table is covered by the grants at [now] when every lease that
    is current then was granted: to its holder, until its expiry. *)
Definition covered (st : Coordinator) (now : Z) (grants : list Grant)
  : Prop :=
  ∀ svc l, currentLease st now svc = Some l →
    ∃ g, g ∈ grants ∧ grantService g = svc ∧
         grantUnit g = HolderUnitID l ∧ grantUntil g = ExpiryTimestamp l.

(** A table without malformed entries: no lease is for an empty service
    or an empty unit. *)
Definition cleanLeases (st : Coordinator) : Prop :=
  ∀ svc l, leases st !! svc = Some l → svc ≠ "" ∧ HolderUnitID l ≠ "".

End Operations.

(** Two units claim the same service, five seconds apart. *)
Definition rivalClaims : list (Z * Op) :=
  [ (0%Z, OpClaim "service-foo" "unit-foo-0" 30);
    (5%Z, OpClaim "service-foo" "unit-foo-1" 30) ].

(** A lease held by [unit-foo-0] until 30, for the examples. *)
Definition heldByFoo0 : Coordinator :=
  setLease initial "service-foo"
    {| HolderUnitID := "unit-foo-0"; ExpiryTimestamp := 30 |}.

End Leadership.

(* ===================================================================== *)
(** ** The bulk operations of the leadership facade *)
(* ===================================================================== *)

Module LeadershipService.
Import Params Leadership.

(** Modelled from the spec: the wire form of a taxonomy value, with the
    name of the value as its code. *)
Definition serverError (e : LeadershipError) : Error.t :=
  match e with
  | LeaseHeld =>
      {| Error.Message := "another unit holds an unexpired lease";
         Error.Code := "LeaseHeld" |}
  | NotLeader =>
      {| Error.Message := "caller is not current holder";
         Error.Code := "NotLeader" |}
  | NotFound =>
      {| Error.Message := "entity gone"; Error.Code := "NotFound" |}
  | Unauthorized =>
      {| Error.Message := "credentials lost";
         Error.Code := "Unauthorized" |}
  | Transient =>
      {| Error.Message := "transport or timeout";
         Error.Code := "Transient" |}
  | Invalid =>
      {| Error.Message := "malformed request"; Error.Code := "Invalid" |}
  end.

(** A whole number of seconds as the [float64] of [ClaimDurationInSec]. *)
Definition seconds (d : Z) : float :=
  if (d <? 0)%Z then PrimFloat.opp (PrimFloat.of_uint63 (Uint63.of_Z (- d)))
  else PrimFloat.of_uint63 (Uint63.of_Z d).

Section Bulk.
Variable maxDuration : Z.
(** The duration the facade requests for every claim: the bulk
    parameters carry none. *)
Variable claimDuration : Z.

(** Modelled from the spec: the result record of one claim; tags are
    opaque and serve as the identifiers. *)
Definition claimResult (p : ClaimLeadershipParams.t)
    (r : Z + LeadershipError) : ClaimLeadershipResults.t :=
  match r with
  | inl granted =>
      {| ClaimLeadershipResults.ServiceTag :=
           ClaimLeadershipParams.ServiceTag p;
         ClaimLeadershipResults.ClaimDurationInSec := seconds granted;
         ClaimLeadershipResults.Error := None |}
  | inr e =>
      {| ClaimLeadershipResults.ServiceTag :=
           ClaimLeadershipParams.ServiceTag p;
         ClaimLeadershipResults.ClaimDurationInSec := seconds 0;
         ClaimLeadershipResults.Error := Some (serverError e) |}
  end.

Definition claimOne (st : Coordinator) (now : Z)
    (p : ClaimLeadershipParams.t)
  : ClaimLeadershipResults.t * Coordinator :=
  let r := ClaimLeadership maxDuration st now
             (ClaimLeadershipParams.ServiceTag p)
             (ClaimLeadershipParams.UnitTag p) claimDuration in
  (claimResult p r.1, r.2).


(** Modelled from the spec: a bulk operation takes its elements in order,
    each on the state the ones before it left, and records one result per
    element whether it failed or not. *)
Fixpoint each {P R : Type} (one : Coordinator → Z → P → R * Coordinator)
    (st : Coordinator) (now : Z) (ps : list P) : list R * Coordinator :=
  match ps with
  | [] => ([], st)
  | p :: rest =>
      let r := one st now p in
      let rs := each one r.2 now rest in
      (r.1 :: rs.1, rs.2)
  end.

(** Modelled from the spec: the bulk claim and the bulk release, over
    the parameter and result records of [params]. *)
Definition ClaimLeadershipBulk (st : Coordinator) (now : Z)
    (args : ClaimLeadershipBulkParams.t)
  : ClaimLeadershipBulkResults.t * Coordinator :=
  let rs := each claimOne st now (ClaimLeadershipBulkParams.Params args) in
  ({| ClaimLeadershipBulkResults.Results := rs.1 |}, rs.2).







End Bulk.

(** A bulk claim, from the pairs of service tag and unit tag of its
    elements. *)
Definition claimsOf (pairs : list (string * string))
  : ClaimLeadershipBulkParams.t :=
  {| ClaimLeadershipBulkParams.Params :=
       (λ su, {| ClaimLeadershipParams.ServiceTag := su.1;
                 ClaimLeadershipParams.UnitTag := su.2 |}) <$> pairs |}.

(** The bulk claim of the design document: [svcB] is already held by
    [u3] when [u1], [u2] and [u1] claim [svcA], [svcB] and [svcC]. *)
Definition svcBHeld : Coordinator :=
  setLease initial "svcB"
    {| HolderUnitID := "u3"; ExpiryTimestamp := 30 |}.

Definition threeClaims : ClaimLeadershipBulkParams.t :=
  claimsOf [("svcA", "u1"); ("svcB", "u2"); ("svcC", "u1")].



End LeadershipService.

(* ===================================================================== *)
(** ** The worker execution engine *)
(* ===================================================================== *)

Module Worker.

(** Modelled from the spec: the classes into which the remote-call facade
    sorts a non-nil error (section 6), and such an error. *)
Inductive ErrorClass := NotFound | Unauthorized | Transient | Other.

Record CallError := { class : ErrorClass; message : string }.

(** Modelled from the spec: what a handler or a worker ends with: the
    distinguished terminate-permanently signal, or an ordinary error; a
    tagged variant, as the design notes ask.  [None] is [nil]. *)
Inductive WorkerError :=
  | ErrTerminateAgent
  | ErrOrdinary (e : CallError).

Definition result := option WorkerError.

(** Modelled from the spec: the handler contract (section 4.2), over the
    handler's own state [H]. *)
Record Handler (H : Type) :=
  { SetUp : H → result * H;
    HandleChange : H → result * H;
    TearDown : H → H }.
Arguments SetUp {H}.
Arguments HandleChange {H}.
Arguments TearDown {H}.

(** Modelled from the spec: the states of a [WorkerHandle]. *)
Inductive State :=
  | Starting
  | Running
  | Stopping
  | Stopped (finalResult : result).

(** Modelled from the spec: a handle, with the handler's state and the
    number of [TearDown] calls made so far. *)
Record WorkerHandle (H : Type) :=
  { state : State; handlerState : H; tornDown : nat }.
Arguments state {H}.
Arguments handlerState {H}.
Arguments tornDown {H}.

(** Modelled from the spec: what the worker's task meets at its wait
    point. *)
Inductive Event := Notify | StopRequest.

Section Engine.
Context {H : Type} (handler : Handler H).

(** Modelled from the spec: [Start] returns at once; [SetUp] has not
    run yet. *)
Definition Start (h : H) : WorkerHandle H :=
  {| state := Starting; handlerState := h; tornDown := 0 |}.

(** Modelled from the spec: every exit path runs [TearDown] before
    [Stopped] can be observed. *)
Definition finish (w : WorkerHandle H) (r : result) : WorkerHandle H :=
  {| state := Stopped r;
     handlerState := TearDown handler (handlerState w);
     tornDown := S (tornDown w) |}.

(** Modelled from the spec: one [HandleChange] call of a running
    worker; an error, the terminate signal included, ends the worker with
    that very value. *)
Definition handleOne (w : WorkerHandle H) : WorkerHandle H :=
  let r := HandleChange handler (handlerState w) in
  match r.1 with
  | Some e =>
      finish {| state := Running; handlerState := r.2;
                tornDown := tornDown w |} (Some e)
  | None =>
      {| state := Running; handlerState := r.2; tornDown := tornDown w |}
  end.

(** Modelled from the spec: the running worker at its wait point, given
    what arrives there; a stopped worker takes nothing more. *)
Definition react (w : WorkerHandle H) (ev : Event) : WorkerHandle H :=
  match state w with
  | Running =>
      match ev with
      | Notify => handleOne w
      | StopRequest =>
          finish {| state := Stopping; handlerState := handlerState w;
                    tornDown := tornDown w |} None
      end
  | _ => w
  end.

(** Modelled from the spec: the asynchronous start, [SetUp] and then
    the synthetic first notification. *)
Definition setUp (w : WorkerHandle H) : WorkerHandle H :=
  match state w with
  | Starting =>
      let r := SetUp handler (handlerState w) in
      match r.1 with
      | Some e =>
          finish {| state := Starting; handlerState := r.2;
                    tornDown := tornDown w |} (Some e)
      | None =>
          handleOne {| state := Running; handlerState := r.2;
                       tornDown := tornDown w |}
      end
  | _ => w
  end.

(** Modelled from the spec: the worker's task on the events it meets,
    in order. *)
Definition runTask (h : H) (events : list Event) : WorkerHandle H :=
  fold_left react events (setUp (Start h)).

(** Modelled from the spec: [Wait] gives the final result once the
    worker is [Stopped]; [None] while the caller is still blocked. *)
Definition Wait (w : WorkerHandle H) : option result :=
  match state w with
  | Stopped r => Some r
  | _ => None
  end.

End Engine.

(** Modelled from the spec: a worker for the caller's own entity over the
    remote-call facade.  [NotFound] or [Unauthorized] for that entity is
    the terminate signal; any other error goes on as it is. *)
Definition ownEntity (err : option CallError) : result :=
  match err with
  | None => None
  | Some e =>
      match class e with
      | NotFound | Unauthorized => Some ErrTerminateAgent
      | _ => Some (ErrOrdinary e)
      end
  end.

(** Modelled from the spec: the facade as the worker sees it is the
    error (or [nil]) of its [n]-th call for its entity; the handler's
    state counts the calls made. *)
Definition entityWorker (Call : nat → option CallError) : Handler nat :=
  {| SetUp n := (ownEntity (Call n), S n);
     HandleChange n := (ownEntity (Call n), S n);
     TearDown n := n |}.



End Worker.

(* ===================================================================== *)
(** ** testing: the suite that isolates tests from the environment *)
(* ===================================================================== *)

Module Os.

(** The process environment: the variables that are set, with their
    values. *)
Abbreviation Environ := (gmap string string).

(** A name [os.Setenv] accepts: not empty, without [=] and without a
    NUL byte. *)
Definition validKey (key : string) : bool :=
  negb (String.eqb key "") && Api.noByte "=" key && Api.noByte "000" key.

(** [os.Getenv(key)]: the value of the variable, empty when it is not
    set. *)
Definition Getenv (key : string) (env : Environ) : string :=
  if String.eqb key "" then "" else default "" (env !! key).

(** [os.Setenv(key, value)]: fails with EINVAL, and sets nothing, for a
    name it does not accept or a value with a NUL byte. *)
Definition Setenv (key value : string) (env : Environ)
  : option string * Environ :=
  if validKey key && Api.noByte "000" value
  then (None, <[key := value]> env)
  else (Some "setenv: invalid argument", env).

(** [utils.Home] and [utils.SetHome] on Unix: the variable [HOME]. *)
Definition Home (env : Environ) : string := Getenv "HOME" env.

Definition SetHome (s : string) (env : Environ) : option string * Environ :=
  Setenv "HOME" s env.

End Os.

Module Testing.
Import GoStrings Os.

Section JujuOSEnv.
(** The names of the variables, constants of [osenv]. *)
Variables JujuHomeEnvKey JujuEnvEnvKey JujuLoggingConfigEnvKey
  JujuFeatureFlagEnvKey : string.
(** [osenv.SetJujuHome]: sets the juju home kept by [osenv] (a state of
    type [J]) and returns a string for [TearDownTest] to hand back. *)
Variable J : Type.
Variable SetJujuHome : string → J → string * J.
(** [featureflag]: the set of flags (of type [F]) that
    [SetFlagsFromEnvironment] reads from the value of a variable. *)
Variable F : Type.
Variable parseFlags : string → F.

(** What the suite touches outside itself: the environment, the feature
    flags in force and the juju home. *)
Record Process :=
  { environ : Environ; flags : F; jujuHome : J }.

Record JujuOSEnvSuite :=
  { oldJujuHome : string;
    oldHomeEnv : string;
    oldEnvironment : gmap string string }.

(** The variables [SetUpTest] blanks, in the order of its loop. *)
Definition isolated : list string :=
  [JujuHomeEnvKey; JujuEnvEnvKey; JujuLoggingConfigEnvKey;
   JujuFeatureFlagEnvKey].

(** [featureflag.SetFlagsFromEnvironment(name)]. *)
Definition SetFlagsFromEnvironment (name : string) (p : Process) : Process :=
  {| environ := environ p;
     flags := parseFlags (Getenv name (environ p));
     jujuHome := jujuHome p |}.

(** One turn of the loop of [SetUpTest]: the value is saved, the
    variable blanked; an error of [os.Setenv] is not looked at. *)
Definition saveAndBlank (acc : gmap string string * Environ) (name : string)
  : gmap string string * Environ :=
  (<[name := Getenv name acc.2]> acc.1, (Setenv name "" acc.2).2).

Definition SetUpTest (s : JujuOSEnvSuite) (p : Process)
  : JujuOSEnvSuite * Process :=
  let saved := fold_left saveAndBlank isolated (∅, environ p) in
  let oldHome := Home saved.2 in
  let env := (SetHome "" saved.2).2 in
  let p1 := SetFlagsFromEnvironment JujuFeatureFlagEnvKey
              {| environ := env; flags := flags p; jujuHome := jujuHome p |} in
  let swapped := SetJujuHome "" (jujuHome p1) in
  ({| oldJujuHome := swapped.1;
      oldHomeEnv := oldHome;
      oldEnvironment := saved.1 |},
   {| environ := environ p1; flags := flags p1; jujuHome := swapped.2 |}).

(** [TearDownTest]: the loop over the saved map sets every saved
    variable; the order does not matter, a name is in the map once. *)
Definition restore (name value : string) (env : Environ) : Environ :=
  (Setenv name value env).2.

Definition TearDownTest (s : JujuOSEnvSuite) (p : Process) : Process :=
  let env := map_fold restore (environ p) (oldEnvironment s) in
  let env := (SetHome (oldHomeEnv s) env).2 in
  {| environ := env;
     flags := flags p;
     jujuHome := (SetJujuHome (oldJujuHome s) (jujuHome p)).2 |}.

(** [SetFeatureFlags(flag...)]; [None] is the panic on an error of
    [os.Setenv]. *)
Definition SetFeatureFlags (flag : list string) (p : Process)
  : option Process :=
  let joined := GoStrings.Join flag "," in
  match Setenv JujuFeatureFlagEnvKey joined (environ p) with
  | (Some _, _) => None
  | (None, env) =>
      Some (SetFlagsFromEnvironment JujuFeatureFlagEnvKey
              {| environ := env; flags := flags p; jujuHome := jujuHome p |})
  end.

End JujuOSEnv.

Arguments environ {J F}.
Arguments flags {J F}.
Arguments jujuHome {J F}.

(** An environment in which no value has a NUL byte, as every
    environment of a process is. *)
Definition cleanValues (env : Environ) : Prop :=
  ∀ k v, env !! k = Some v → Api.noByte "000" v = true.

(** The names as [osenv] has them, a juju home that is one string, and
    flags kept as the text they were read from. *)
Definition jujuKeys : list string :=
  ["JUJU_HOME"; "JUJU_ENV"; "JUJU_LOGGING_CONFIG"; "JUJU_DEV_FEATURE_FLAGS"].

Definition swapHome (new old : string) : string * string := (old, new).

Definition someProcess : Process string string :=
  {| environ := {[ "JUJU_HOME" := "/home/ubuntu/.juju";
                   "HOME" := "/home/ubuntu";
                   "PATH" := "/usr/bin" ]};
     flags := "";
     jujuHome := "/home/ubuntu/.juju" |}.

Definition freshSuite : JujuOSEnvSuite :=
  {| oldJujuHome := ""; oldHomeEnv := ""; oldEnvironment := ∅ |}.

End Testing.

(* ===================================================================== *)
(** ** environs/testing: fake tools in a storage *)
(* ===================================================================== *)

Module EnvironsTesting.
Import GoStrings HttpStorage.

(** [version.Number] and [version.Binary]. *)
Module Number.
Record t := { Major : Z; Minor : Z; Patch : Z; Build : Z }.
End Number.

Module Binary.
Record t := { Number : Number.t; Series : string; Arch : string }.
End Binary.

(** [coretools.Tools], with the fields the helpers set. *)
Module Tools.
Record t := { Version : Binary.t; URL : string }.
End Tools.

(** The assignment [toolsVersion.Series = series], on the copy of a
    [version.Binary] the helpers hold. *)
Definition withSeries (vers : Binary.t) (series : string) : Binary.t :=
  {| Binary.Number := Binary.Number vers;
     Binary.Series := series;
     Binary.Arch := Binary.Arch vers |}.

(** [c.Check(err, IsNil)]: the test is marked failed on an error, and
    goes on. *)
Definition Check (failed : bool) (err : error) : bool :=
  match err with
  | Some _ => true
  | None => failed
  end.

Section FakeTools.
(** [environs.Storage]: the methods of [storage.Storage] and [URL]. *)
Context {S : Type} `{StorageOps S}.
Variable Storage_URL : string → S → (string + string) * S.
(** [envtools.StorageName], [version.Binary.String], [version.Current]
    and [config.DefaultSeries]. *)
Variable StorageName : Binary.t → string.
Variable Binary_String : Binary.t → string.
Variable Current : Binary.t.
Variable DefaultSeries : string.

Definition uploadFakeToolsVersion (vers : Binary.t) (storage : S)
  : (Tools.t + string) * S :=
  let data := Binary_String vers in
  let name := StorageName vers in
  match Put name data (Z.of_nat (String.length data)) storage with
  | (Some err, storage) => (inr err, storage)
  | (None, storage) =>
      match Storage_URL name storage with
      | (inr err, storage) => (inr err, storage)
      | (inl url, storage) =>
          (inl {| Tools.Version := vers; Tools.URL := url |}, storage)
      end
  end.

Definition uploadFakeTools (storage : S) : error * S :=
  let toolsVersion := Current in
  match uploadFakeToolsVersion toolsVersion storage with
  | (inr err, storage) => (Some err, storage)
  | (inl _, storage) =>
      if String.eqb (Binary.Series toolsVersion) DefaultSeries
      then (None, storage)
      else
        let toolsVersion := withSeries toolsVersion DefaultSeries in
        match uploadFakeToolsVersion toolsVersion storage with
        | (inr err, storage) => (Some err, storage)
        | (inl _, storage) => (None, storage)
        end
  end.

(** [UploadFakeTools]: [c.Assert] stops the test on an error, which is
    [None]; otherwise the test goes on as it was. *)
Definition UploadFakeTools (failed : bool) (storage : S) : option bool * S :=
  match uploadFakeTools storage with
  | (Some _, storage) => (None, storage)
  | (None, storage) => (Some failed, storage)
  end.

(** [MustUploadFakeTools]; [None] is the panic. *)
Definition MustUploadFakeTools (storage : S) : option S :=
  match uploadFakeTools storage with
  | (Some _, _) => None
  | (None, storage) => Some storage
  end.

Definition RemoveFakeTools (failed : bool) (storage : S) : bool * S :=
  let toolsVersion := Current in
  let name := StorageName toolsVersion in
  let '(err, storage) := Remove name storage in
  let failed := Check failed err in
  if negb (String.eqb (Binary.Series Current) DefaultSeries) then
    let toolsVersion := withSeries toolsVersion DefaultSeries in
    let name := StorageName toolsVersion in
    let '(err, storage) := Remove name storage in
    (Check failed err, storage)
  else (failed, storage).

(** One turn of the loop of [RemoveTools]. *)
Definition removeOne (acc : bool * S) (name : string) : bool * S :=
  let '(err, storage) := Remove name acc.2 in
  (Check acc.1 err, storage).

(** [RemoveTools]; [None] is the test stopped by [c.Assert]. *)
Definition RemoveTools (failed : bool) (storage : S) : option bool * S :=
  match List "tools/juju-" storage with
  | (inr _, storage) => (None, storage)
  | (inl names, storage) =>
      let r := fold_left removeOne names (failed, storage) in
      (Some r.1, r.2)
  end.

(** A storage that keeps what is put under a name until the name is
    removed, as the storages of the providers do; [contents] is what it
    holds. *)
Record keeps (contents : S → gmap string string) : Prop :=
  { keeps_Put : ∀ name data len st,
      ∃ st', Put name data len st = (None, st') ∧
             contents st' = <[name := data]> (contents st);
    keeps_URL : ∀ name st,
      ∃ r st', Storage_URL name st = (r, st') ∧ contents st' = contents st ∧
               (is_Some (contents st !! name) → ∃ url, r = inl url);
    keeps_Remove : ∀ name st,
      ∃ st', Remove name st = (None, st') ∧
             contents st' = delete name (contents st);
    keeps_List : ∀ prefix st,
      ∃ names st', List prefix st = (inl names, st') ∧
                   contents st' = contents st ∧
                   ∀ n, n ∈ names ↔
                        HasPrefix n prefix = true ∧
                        is_Some (contents st !! n) }.

End FakeTools.

(** The store in memory, with URLs for the names it holds. *)
Definition memURL (name : string) (st : memStore)
  : (string + string) * memStore :=
  match st !! name with
  | Some _ => (inl ("mem://" +:+ name), st)
  | None => (inr ("file " +:+ name +:+ " not found"), st)
  end.

(** [version.Number.String], [version.Binary.String] and
    [envtools.StorageName]. *)
Definition numberString (n : Number.t) : string :=
  pretty (Number.Major n) +:+ "." +:+ pretty (Number.Minor n) +:+ "." +:+
  pretty (Number.Patch n) +:+
  (if (0 <? Number.Build n)%Z then "." +:+ pretty (Number.Build n) else "").

Definition binaryString (vers : Binary.t) : string :=
  numberString (Binary.Number vers) +:+ "-" +:+ Binary.Series vers +:+ "-" +:+
  Binary.Arch vers.

Definition storageName (vers : Binary.t) : string :=
  "tools/juju-" +:+ binaryString vers +:+ ".tgz".

Definition V100q64 : Binary.t :=
  {| Binary.Number := {| Number.Major := 1; Number.Minor := 0;
                         Number.Patch := 0; Number.Build := 0 |};
     Binary.Series := "quantal";
     Binary.Arch := "amd64" |}.

Definition someStore : memStore :=
  {[ "tools/juju-1.0.0-precise-i386.tgz" := "1.0.0-precise-i386";
     "images/index.json" := "{}" ]}.

End EnvironsTesting.

(* ===================================================================== *)
(** * Properties *)
(* ===================================================================== *)

Import Params.

(** ** Entity names *)

Section EntityNames.
Import GoStrings Api.

Lemma append_empty_r (s : string) : s +:+ "" = s.
Proof.
  induction s as [|c s IH]; [done|].
  change (String c (s +:+ "") = String c s). by f_equal.
Qed.

Lemma append_cons (c : ascii) (s t : string) :
  String c s +:+ t = String c (s +:+ t).
Proof. reflexivity. Qed.

Lemma MachineEntityName_eq (id : string) :
  MachineEntityName id = "machine-" +:+ id.
Proof. unfold MachineEntityName. simpl. by rewrite append_empty_r. Qed.

(** Replacing the one-byte pattern [/] without a limit changes each byte
    on its own. *)
Lemma replaceFrom_slash (s : string) (n : Z) :
  (n < 0)%Z →
  replaceFrom "/" "-" n 0 s = mapBytes slashToDash s.
Proof.
  revert n. induction s as [|c s IH]; intros n Hn; simpl; [done|].
  assert ((n =? 0)%Z = false) as -> by (apply Z.eqb_neq; lia).
  assert (HasPrefix s "" = true) as -> by (by destruct s).
  unfold slashToDash at 1.
  destruct (Ascii.eqb c "/"); simpl; rewrite IH; (done || lia).
Qed.

Lemma UnitEntityName_eq (unitName : string) :
  UnitEntityName unitName = "unit-" +:+ mapBytes slashToDash unitName.
Proof.
  unfold UnitEntityName, Replace. simpl.
  by rewrite replaceFrom_slash.
Qed.

Lemma mapBytes_length f (s : string) :
  String.length (mapBytes f s) = String.length s.
Proof. induction s; simpl; congruence. Qed.

Lemma mapBytes_get f (s : string) (i : nat) :
  String.get i (mapBytes f s) = f <$> String.get i s.
Proof.
  revert i. induction s as [|c s IH]; intros [|i]; simpl; auto.
Qed.

Lemma noByte_mapBytes (s : string) :
  noByte "/" s = true → mapBytes slashToDash s = s.
Proof.
  induction s as [|c s IH]; simpl; [done|].
  intros [Hc Hs]%andb_prop. rewrite IH by done.
  unfold slashToDash. by destruct (Ascii.eqb c "/").
Qed.

Lemma serviceSlashNumber_dash (s : string) :
  serviceSlashNumber s = true → noByte "-" (mapBytes slashToDash s) = false.
Proof.
  induction s as [|c s IH]; simpl; [done|].
  unfold slashToDash at 1.
  destruct (Ascii.eqb c "/") eqn:Hc; simpl; [done|].
  intros Hs. rewrite IH by done. apply andb_false_r.
Qed.

Lemma mapBytes_slashToDash_inj (u1 u2 : string) :
  serviceSlashNumber u1 = true → serviceSlashNumber u2 = true →
  mapBytes slashToDash u1 = mapBytes slashToDash u2 → u1 = u2.
Proof.
  revert u2. induction u1 as [|c1 s1 IH]; intros [|c2 s2]; simpl; try done.
  intros H1 H2 Heq. injection Heq as Hc Hs.
  unfold slashToDash in Hc.
  destruct (Ascii.eqb_spec c1 "/") as [->|Hc1],
           (Ascii.eqb_spec c2 "/") as [->|Hc2].
  - apply andb_prop in H1 as [H1 _]. apply andb_prop in H2 as [H2 _].
    rewrite !noByte_mapBytes in Hs by done. by subst.
  - apply andb_prop in H1 as [H1 H1'].
    rewrite (noByte_mapBytes s1) in Hs by done. subst s1.
    by rewrite serviceSlashNumber_dash in H1'.
  - apply andb_prop in H2 as [H2 H2'].
    rewrite (noByte_mapBytes s2) in Hs by done. subst s2.
    by rewrite serviceSlashNumber_dash in H2'.
  - subst c2. f_equal. by apply IH.
Qed.

Lemma UnitEntityName_inj (u1 u2 : string) :
  serviceSlashNumber u1 = true → serviceSlashNumber u2 = true →
  UnitEntityName u1 = UnitEntityName u2 → u1 = u2.
Proof.
  intros H1 H2. rewrite !UnitEntityName_eq. intros Heq.
  apply mapBytes_slashToDash_inj; [done..|].
  by apply (inj (String.app "unit-")).
Qed.

End EntityNames.

(** C7.  Entity names have the form kind-id: [MachineEntityName id] is
    ["machine-"] followed by [id], and [UnitEntityName unitName] is
    ["unit-"] followed by a string as long as [unitName] that has, at each
    index, the byte of [unitName] there, with ["-"] for every ["/"]. *)
Theorem entity_names_form :
  (∀ id : string, Api.MachineEntityName id = "machine-" +:+ id) ∧
  (∀ unitName : string, ∃ body : string,
      Api.UnitEntityName unitName = "unit-" +:+ body ∧
      String.length body = String.length unitName ∧
      ∀ i : nat,
        String.get i body =
        match String.get i unitName with
        | Some c => Some (if Ascii.eqb c "/" then "-"%char else c)
        | None => None
        end).
Proof.
  split; [apply MachineEntityName_eq|].
  intros unitName. exists (GoStrings.mapBytes Api.slashToDash unitName).
  split; [apply UnitEntityName_eq|].
  split; [apply mapBytes_length|].
  intros i. rewrite mapBytes_get. by destruct (String.get i unitName).
Qed.

(** C9, as the specification states it, fails: the unit names
    [wordpress/0] and [wordpress-0] differ and have the same entity
    name. *)
Lemma unit_entity_names_collide :
  "wordpress/0" ≠ "wordpress-0" ∧
  Api.UnitEntityName "wordpress/0" = Api.UnitEntityName "wordpress-0" ∧
  ¬ (∀ u1 u2 : string,
       u1 ≠ u2 → Api.UnitEntityName u1 ≠ Api.UnitEntityName u2).
Proof.
  split; [discriminate|]. split; [reflexivity|].
  intros Hinj. by apply (Hinj "wordpress/0" "wordpress-0").
Qed.

(** C9, amended.  For unit names of the form service/number (one slash,
    no dash after it), distinct unit names have distinct entity names;
    and among machines and such units, two entities of one state that
    are not the same entity have different entity names. *)
Theorem entity_names_identify :
  (∀ u1 u2 : string,
      Api.serviceSlashNumber u1 = true → Api.serviceSlashNumber u2 = true →
      u1 ≠ u2 → Api.UnitEntityName u1 ≠ Api.UnitEntityName u2) ∧
  (∀ e1 e2 : Api.Entity,
      Api.wellFormed e1 → Api.wellFormed e2 →
      ¬ Api.sameEntity e1 e2 → Api.EntityName e1 ≠ Api.EntityName e2).
Proof.
  split.
  - intros u1 u2 H1 H2 Hne Heq. apply Hne. by apply UnitEntityName_inj.
  - intros [m1|u1] [m2|u2] H1 H2 Hne Heq; simpl in *.
    + apply Hne. unfold Api.Id in Heq.
      rewrite !MachineEntityName_eq in Heq.
      by apply (inj (String.app "machine-")).
    + rewrite MachineEntityName_eq, UnitEntityName_eq, !append_cons in Heq.
      discriminate.
    + rewrite MachineEntityName_eq, UnitEntityName_eq, !append_cons in Heq.
      discriminate.
    + apply Hne. by apply UnitEntityName_inj.
Qed.

Lemma entity_names_identify_witness :
  Api.UnitEntityName "wordpress/0" ≠ Api.UnitEntityName "mysql/0" ∧
  Api.EntityName (Api.EUnit {| Api.name := "wordpress/0";
                               Api.udoc := {| Api.DeployerName := "" |} |})
  ≠ Api.EntityName (Api.EMachine {| Api.id := "0";
                                    Api.mdoc := {| Api.InstanceId := "" |} |}).
Proof.
  split.
  - apply (proj1 entity_names_identify);
      [reflexivity | reflexivity | discriminate].
  - apply (proj2 entity_names_identify); simpl; [reflexivity | exact I | tauto].
Defined.

(** ** Block-device paths *)

Section BlockDevicePaths.
Import GoStrings Filepath Storage.

Lemma eqb_empty_false (s : string) : s ≠ "" → String.eqb s "" = false.
Proof. intros Hs. by apply String.eqb_neq. Qed.

(** Under [/dev/disk/by-id] and under [/dev], with or without a closing
    separator on the directory, [Join] cleans the same components. *)
Lemma Join_diskByID (s : string) :
  Filepath.Join ["/dev/disk/by-id/"; s] = Filepath.Join [diskByID; s].
Proof. reflexivity. Qed.

Lemma Join_diskByDeviceName (s : string) :
  Filepath.Join ["/dev/"; s] = Filepath.Join [diskByDeviceName; s].
Proof. reflexivity. Qed.

Lemma splitSlash_plain (s : string) :
  Api.noByte "/" s = true → splitSlash s = [s].
Proof.
  induction s as [|c s IH]; simpl; [done|].
  intros [Hc Hs]%andb_prop. apply negb_true_iff in Hc.
  by rewrite Hc, IH.
Qed.

Lemma cleanStep_plain (rooted : bool) (stack : list string) (s : string) :
  plainName s = true → cleanStep rooted stack s = s :: stack.
Proof.
  unfold plainName, cleanStep.
  intros [[[H1 H2]%andb_prop H3]%andb_prop _]%andb_prop.
  apply negb_true_iff in H1, H2, H3. by rewrite H1, H2, H3.
Qed.

(** A plain name is joined to the directory as it is. *)
Lemma Join_plain_diskByID (s : string) :
  plainName s = true →
  Filepath.Join [diskByID; s] = "/dev/disk/by-id/" +:+ s.
Proof.
  intros Hs.
  change (Filepath.Join [diskByID; s]) with
    ("/" +:+ GoStrings.Join
       (rev (fold_left (cleanStep true) (splitSlash s)
               ["by-id"; "disk"; "dev"])) "/").
  rewrite splitSlash_plain
    by (unfold plainName in Hs; by apply andb_prop in Hs as [_ ?]).
  simpl fold_left. by rewrite cleanStep_plain.
Qed.

Lemma Join_plain_diskByDeviceName (s : string) :
  plainName s = true →
  Filepath.Join [diskByDeviceName; s] = "/dev/" +:+ s.
Proof.
  intros Hs.
  change (Filepath.Join [diskByDeviceName; s]) with
    ("/" +:+ GoStrings.Join
       (rev (fold_left (cleanStep true) (splitSlash s) ["dev"])) "/").
  rewrite splitSlash_plain
    by (unfold plainName in Hs; by apply andb_prop in Hs as [_ ?]).
  simpl fold_left. by rewrite cleanStep_plain.
Qed.

End BlockDevicePaths.

(** C8.  [BlockDevicePath] returns ["/dev/disk/by-id/"] joined with the
    serial, and no error, when the serial is not empty, whatever the
    device name; ["/dev/"] joined with the device name, and no error,
    when the serial is empty and the device name is not; and an error
    exactly when both are empty.  Joining is [filepath.Join]; for a plain
    name it puts the name after the directory as it is. *)
Theorem BlockDevicePath_cases (device : Storage.BlockDevice) :
  (Storage.Serial device ≠ "" →
     Storage.BlockDevicePath device =
     (Filepath.Join ["/dev/disk/by-id/"; Storage.Serial device], None)) ∧
  (Storage.Serial device = "" → Storage.DeviceName device ≠ "" →
     Storage.BlockDevicePath device =
     (Filepath.Join ["/dev/"; Storage.DeviceName device], None)) ∧
  ((Storage.BlockDevicePath device).2 ≠ None ↔
     Storage.Serial device = "" ∧ Storage.DeviceName device = "") ∧
  (Storage.plainName (Storage.Serial device) = true →
     Storage.BlockDevicePath device =
     ("/dev/disk/by-id/" +:+ Storage.Serial device, None)) ∧
  (Storage.Serial device = "" →
   Storage.plainName (Storage.DeviceName device) = true →
     Storage.BlockDevicePath device =
     ("/dev/" +:+ Storage.DeviceName device, None)).
Proof.
  destruct device as [dn sn]. unfold Storage.BlockDevicePath.
  cbn [Storage.Serial Storage.DeviceName].
  destruct (String.eqb_spec sn "") as [->|Hsn]; cbn [negb].
  - destruct (String.eqb_spec dn "") as [->|Hdn]; cbn [negb snd].
    + split_and!; done.
    + split_and!; try done.
      * split; [done | by intros [_ ?]].
      * intros _ Hp. by rewrite <- Join_plain_diskByDeviceName.
  - cbn [snd]. split_and!; try done.
    + split; [done | by intros [? _]].
    + intros Hp. by rewrite <- Join_plain_diskByID.
Qed.

Lemma BlockDevicePath_cases_witness :
  Storage.BlockDevicePath
    {| Storage.DeviceName := "sda"; Storage.Serial := "ata-QEMU_0001" |}
  = ("/dev/disk/by-id/ata-QEMU_0001", None) ∧
  Storage.BlockDevicePath
    {| Storage.DeviceName := "sda"; Storage.Serial := "" |}
  = ("/dev/sda", None) ∧
  (Storage.BlockDevicePath
     {| Storage.DeviceName := ""; Storage.Serial := "" |}).2
  ≠ None.
Proof.
  split; [|split].
  - apply (proj1 (proj2 (proj2 (proj2 (BlockDevicePath_cases
      {| Storage.DeviceName := "sda"; Storage.Serial := "ata-QEMU_0001" |}))))).
    reflexivity.
  - apply (proj2 (proj2 (proj2 (proj2 (BlockDevicePath_cases
      {| Storage.DeviceName := "sda"; Storage.Serial := "" |}))))).
    + reflexivity.
    + reflexivity.
  - apply (proj1 (proj2 (proj2 (BlockDevicePath_cases
      {| Storage.DeviceName := ""; Storage.Serial := "" |})))).
    split; reflexivity.
Defined.

(** ** The leadership parameter records *)

(** C6.  The bulk shapes are field-exact: a [ClaimLeadershipParams] is
    its [ServiceTag] and [UnitTag], a [ClaimLeadershipResults] is its
    [ServiceTag], its [ClaimDurationInSec] (a floating-point number) and
    its [Error], a [MergeLeadershipSettingsParam] is its [ServiceTag] and
    [Settings], and nothing more; each bulk record is the list of its
    one field, [Params] or [Results]. *)
Theorem bulk_shapes_field_exact :
  (∀ p, claimParamsOfFields (claimParamsFields p) = p) ∧
  (∀ f, claimParamsFields (claimParamsOfFields f) = f) ∧
  (∀ r, claimResultsOfFields (claimResultsFields r) = r) ∧
  (∀ f, claimResultsFields (claimResultsOfFields f) = f) ∧
  (∀ p, mergeParamOfFields (mergeParamFields p) = p) ∧
  (∀ f, mergeParamFields (mergeParamOfFields f) = f) ∧
  (∀ b : ClaimLeadershipBulkParams.t,
      {| ClaimLeadershipBulkParams.Params :=
           ClaimLeadershipBulkParams.Params b |} = b) ∧
  (∀ l : list ClaimLeadershipParams.t,
      ClaimLeadershipBulkParams.Params
        {| ClaimLeadershipBulkParams.Params := l |} = l) ∧
  (∀ b : ClaimLeadershipBulkResults.t,
      {| ClaimLeadershipBulkResults.Results :=
           ClaimLeadershipBulkResults.Results b |} = b) ∧
  (∀ l : list ClaimLeadershipResults.t,
      ClaimLeadershipBulkResults.Results
        {| ClaimLeadershipBulkResults.Results := l |} = l) ∧
  (∀ b : MergeLeadershipSettingsBulkParams.t,
      {| MergeLeadershipSettingsBulkParams.Params :=
           MergeLeadershipSettingsBulkParams.Params b |} = b) ∧
  (∀ l : list MergeLeadershipSettingsParam.t,
      MergeLeadershipSettingsBulkParams.Params
        {| MergeLeadershipSettingsBulkParams.Params := l |} = l).
Proof.
  split_and!; try (by intros []); try (by intros [[] ?]); done.
Qed.

(** ** The HTTP storage backend *)

Section ServeHTTPProperties.
Import HttpStorage.
Context {S : Type} `{StorageOps S}.

Lemma authorised_iff (s : storageBackend S) (req : Request) :
  authorised s req = true ↔
  authkey s = "" ∨ Values_Get (Query (Url req)) "authkey" = authkey s.
Proof.
  unfold authorised.
  destruct (String.eqb_spec (authkey s) "") as [He|He].
  - split; [by left | done].
  - rewrite String.eqb_eq. split; [by right | by intros [?|?]].
Qed.

Lemma Error_status (w : ResponseWriter) (msg : string) (code : Z) :
  status w = None → status (Error w msg code) = Some code.
Proof.
  intros Hw. unfold Error, Write, WriteHeader, Header_Set.
  rewrite Hw. by simpl.
Qed.

Lemma ServeHTTP_refuses (s : storageBackend S) (w : ResponseWriter)
    (req : Request) :
  Method req = "PUT" ∨ Method req = "DELETE" →
  httpsBaseURL s ≠ "" ∨ authorised s req = false →
  ServeHTTP s w req =
  Some (Error w "unauthorised access" StatusUnauthorized, backend s).
Proof.
  intros Hm Hr. unfold ServeHTTP.
  assert (String.eqb (Method req) "PUT" || String.eqb (Method req) "DELETE"
          = true) as ->.
  { destruct Hm as [-> | ->]; reflexivity. }
  assert (negb (String.eqb (httpsBaseURL s) "") || negb (authorised s req)
          = true) as ->; [|done].
  destruct Hr as [Hr | Hr].
  - apply String.eqb_neq in Hr. by rewrite Hr.
  - rewrite Hr. apply orb_true_r.
Qed.

End ServeHTTPProperties.

(** C10.  A PUT or DELETE request to a backend that has an HTTPS base
    URL, or that has an auth key which the request's [authkey] query
    parameter does not equal, is answered with 401 Unauthorized, and the
    store is the one before the request; and a request is authorised
    exactly when the backend's auth key is empty or the query parameter
    equals it. *)
Theorem ServeHTTP_unauthorised {S : Type} `{HttpStorage.StorageOps S}
    (s : HttpStorage.storageBackend S) (w : HttpStorage.ResponseWriter)
    (req : HttpStorage.Request) :
  (HttpStorage.Method req = "PUT" ∨ HttpStorage.Method req = "DELETE" →
   HttpStorage.httpsBaseURL s ≠ "" ∨
   (HttpStorage.authkey s ≠ "" ∧
    HttpStorage.Values_Get (HttpStorage.Query (HttpStorage.Url req)) "authkey"
    ≠ HttpStorage.authkey s) →
   HttpStorage.status w = None →
   ∃ w' : HttpStorage.ResponseWriter,
     HttpStorage.ServeHTTP s w req = Some (w', HttpStorage.backend s) ∧
     HttpStorage.status w' = Some 401%Z ∧
     w' = HttpStorage.Error w "unauthorised access" 401) ∧
  (HttpStorage.authorised s req = true ↔
   HttpStorage.authkey s = "" ∨
   HttpStorage.Values_Get (HttpStorage.Query (HttpStorage.Url req)) "authkey"
   = HttpStorage.authkey s).
Proof.
  split; [|apply authorised_iff].
  intros Hm Hr Hw. eexists. split; [|split; [|reflexivity]].
  - apply ServeHTTP_refuses; [done|].
    destruct Hr as [Hr | [Hk Hq]]; [by left | right].
    destruct (HttpStorage.authorised s req) eqn:Ha; [|done].
    apply authorised_iff in Ha as [?|?]; done.
  - by apply Error_status.
Qed.

Lemma ServeHTTP_unauthorised_witness :
  ∃ w' : HttpStorage.ResponseWriter,
    HttpStorage.ServeHTTP HttpStorage.guardedBackend HttpStorage.newResponse
      HttpStorage.deleteWithWrongKey
    = Some (w', HttpStorage.backend HttpStorage.guardedBackend) ∧
    HttpStorage.status w' = Some 401%Z ∧
    w' = HttpStorage.Error HttpStorage.newResponse "unauthorised access" 401.
Proof.
  apply (proj1 (ServeHTTP_unauthorised HttpStorage.guardedBackend
                  HttpStorage.newResponse HttpStorage.deleteWithWrongKey)).
  - right. reflexivity.
  - right. split; [discriminate|]. vm_compute. discriminate.
  - reflexivity.
Defined.

(** The same request with the right key is served: the file is removed
    and the answer is 200. *)
Example ServeHTTP_delete_authorised :
  HttpStorage.ServeHTTP HttpStorage.guardedBackend HttpStorage.newResponse
    {| HttpStorage.Method := "DELETE";
       HttpStorage.Url :=
         {| HttpStorage.Path := "/tools";
            HttpStorage.Query := {[ "authkey" := ["secret"] ]} |};
       HttpStorage.ContentLength := 0;
       HttpStorage.Body := "" |}
  = Some ({| HttpStorage.header := ∅; HttpStorage.status := Some 200%Z;
             HttpStorage.written := "" |}, ∅).
Proof. vm_compute. reflexivity. Qed.

(** ** The leadership lease coordinator *)

Section LeaseProperties.
Import Leadership.

Lemma currentLease_Some (st : Coordinator) (now : Z) (svc : string)
    (l : ServiceLeadershipLease) :
  currentLease st now svc = Some l ↔
  leases st !! svc = Some l ∧ HolderUnitID l ≠ "" ∧
  (now < ExpiryTimestamp l)%Z.
Proof.
  unfold currentLease, unexpired.
  destruct (leases st !! svc) as [l'|]; [|by split; [|intros [? _]]].
  destruct (String.eqb_spec (HolderUnitID l') "") as [He|He]; simpl.
  - split; [done|]. intros (Hl & Hh & _). by simplify_eq.
  - destruct (Z.ltb_spec now (ExpiryTimestamp l')).
    + split; [intros; by simplify_eq | by intros [? _]].
    + split; [done|]. intros (Hl & _ & Ht). simplify_eq. lia.
Qed.

Lemma holds_lease (st : Coordinator) (now : Z) (svc u : string) :
  holds st now svc u ↔
  ∃ l, currentLease st now svc = Some l ∧ HolderUnitID l = u.
Proof.
  unfold holds, holder.
  destruct (currentLease st now svc) as [l|]; simpl.
  - split; [intros; simplify_eq; eauto|]. intros (l' & ? & ?). by simplify_eq.
  - split; [done|]. by intros (l' & ? & ?).
Qed.

Lemma holds_unique (st : Coordinator) (now : Z) (svc u1 u2 : string) :
  holds st now svc u1 → holds st now svc u2 → u1 = u2.
Proof. unfold holds. congruence. Qed.

(** The merge, key by key. *)
Lemma mergeSettings_lookup (stored updates : gmap string string)
    (k : string) :
  mergeSettings stored updates !! k =
  match updates !! k with
  | Some v => if String.eqb v "" then None else Some v
  | None => stored !! k
  end.
Proof.
  unfold mergeSettings. revert k.
  apply (map_fold_weak_ind
    (λ r (m : gmap string string), ∀ k,
       r !! k = match m !! k with
                | Some v => if String.eqb v "" then None else Some v
                | None => stored !! k
                end)).
  - intros k. by rewrite lookup_empty.
  - intros i x m r Hi IH k. unfold mergeKey.
    destruct (decide (i = k)) as [->|Hik].
    + rewrite lookup_insert_eq.
      destruct (String.eqb x "");
        [by rewrite lookup_delete_eq | by rewrite lookup_insert_eq].
    + rewrite (lookup_insert_ne m) by done. rewrite <- IH.
      destruct (String.eqb x "");
        [by rewrite lookup_delete_ne | by rewrite lookup_insert_ne].
Qed.

Lemma Merge_by_holder (st : Coordinator) (now : Z) (svc u : string)
    (updates : gmap string string) :
  holds st now svc u →
  MergeLeadershipSettings st now svc u updates =
  (None,
   setSettings st svc (mergeSettings (GetLeadershipSettings st svc) updates)).
Proof.
  intros (l & Hl & Hu)%holds_lease. unfold MergeLeadershipSettings.
  rewrite Hl, Hu. by rewrite String.eqb_refl.
Qed.

Lemma Merge_by_other (st : Coordinator) (now : Z) (svc u : string)
    (updates : gmap string string) :
  ¬ holds st now svc u →
  MergeLeadershipSettings st now svc u updates = (Some NotLeader, st).
Proof.
  intros Hn. unfold MergeLeadershipSettings.
  destruct (currentLease st now svc) as [l|] eqn:Hl; [|done].
  destruct (String.eqb_spec (HolderUnitID l) u) as [Hu|Hu]; [|done].
  exfalso. apply Hn, holds_lease. eauto.
Qed.

Lemma GetLeadershipSettings_set (st : Coordinator) (svc svc' : string)
    (m : gmap string string) :
  GetLeadershipSettings (setSettings st svc m) svc' =
  if decide (svc = svc') then m else GetLeadershipSettings st svc'.
Proof.
  unfold GetLeadershipSettings, setSettings. simpl.
  rewrite lookup_insert. by case_decide.
Qed.

End LeaseProperties.

(** C3.  [MergeLeadershipSettings] by the unit that holds the lease
    succeeds and merges field-wise: in the stored mapping of the
    service, a key that [updates] maps to a non-empty value has that
    value, a key that [updates] maps to the empty string is absent, and
    a key absent from [updates] is as it was; the leases and the
    settings of other services are untouched.  By a unit that does not
    hold the lease it fails with [NotLeader] and changes nothing. *)
Theorem MergeLeadershipSettings_field_wise
    (st : Leadership.Coordinator) (now : Z) (svc u : string)
    (updates : gmap string string) :
  (Leadership.holds st now svc u →
   ∃ st' : Leadership.Coordinator,
     Leadership.MergeLeadershipSettings st now svc u updates = (None, st') ∧
     (∀ k v, updates !! k = Some v → v ≠ "" →
        Leadership.GetLeadershipSettings st' svc !! k = Some v) ∧
     (∀ k, updates !! k = None →
        Leadership.GetLeadershipSettings st' svc !! k =
        Leadership.GetLeadershipSettings st svc !! k) ∧
     (∀ k, updates !! k = Some "" →
        Leadership.GetLeadershipSettings st' svc !! k = None) ∧
     Leadership.leases st' = Leadership.leases st ∧
     (∀ svc', svc' ≠ svc →
        Leadership.GetLeadershipSettings st' svc' =
        Leadership.GetLeadershipSettings st svc')) ∧
  (¬ Leadership.holds st now svc u →
   Leadership.MergeLeadershipSettings st now svc u updates =
   (Some Leadership.NotLeader, st)).
Proof.
  split; [|apply Merge_by_other].
  intros Hh. eexists. split; [by apply Merge_by_holder|].
  split_and!.
  - intros k v Hk Hv.
    rewrite GetLeadershipSettings_set, decide_True by done.
    rewrite mergeSettings_lookup, Hk.
    apply String.eqb_neq in Hv. by rewrite Hv.
  - intros k Hk. rewrite GetLeadershipSettings_set, decide_True by done.
    by rewrite mergeSettings_lookup, Hk.
  - intros k Hk. rewrite GetLeadershipSettings_set, decide_True by done.
    by rewrite mergeSettings_lookup, Hk.
  - done.
  - intros svc' Hne. by rewrite GetLeadershipSettings_set, decide_False.
Qed.

Lemma MergeLeadershipSettings_field_wise_witness :
  (∃ st' : Leadership.Coordinator,
     Leadership.MergeLeadershipSettings Leadership.heldByFoo0 1
       "service-foo" "unit-foo-0" {[ "a" := "1" ]} = (None, st') ∧
     Leadership.GetLeadershipSettings st' "service-foo" !! "a" = Some "1") ∧
  Leadership.MergeLeadershipSettings Leadership.heldByFoo0 1
    "service-foo" "unit-foo-1" {[ "a" := "1" ]}
  = (Some Leadership.NotLeader, Leadership.heldByFoo0).
Proof.
  split.
  - destruct (proj1 (MergeLeadershipSettings_field_wise
                       Leadership.heldByFoo0 1 "service-foo" "unit-foo-0"
                       {[ "a" := "1" ]}))
      as (st' & Hmerge & Hset & _); [reflexivity|].
    exists st'. split; [exact Hmerge|].
    apply Hset; [reflexivity | discriminate].
  - apply (proj2 (MergeLeadershipSettings_field_wise
                    Leadership.heldByFoo0 1 "service-foo" "unit-foo-1"
                    {[ "a" := "1" ]})).
    vm_compute. discriminate.
Defined.

(** The scenario of the design document: the holder merges [a:1], then
    [a:2, b:3], and the mapping is [a:2, b:3]; merging [a:""] then
    deletes [a]. *)
Example merge_scenario :
  let st0 := Leadership.heldByFoo0 in
  let st1 := (Leadership.MergeLeadershipSettings st0 1 "service-foo"
                "unit-foo-0" {[ "a" := "1" ]}).2 in
  let st2 := (Leadership.MergeLeadershipSettings st1 2 "service-foo"
                "unit-foo-0" {[ "a" := "2"; "b" := "3" ]}).2 in
  let st3 := (Leadership.MergeLeadershipSettings st2 3 "service-foo"
                "unit-foo-0" {[ "a" := "" ]}).2 in
  Leadership.GetLeadershipSettings st2 "service-foo"
  = {[ "a" := "2"; "b" := "3" ]} ∧
  Leadership.GetLeadershipSettings st3 "service-foo" = {[ "b" := "3" ]}.
Proof. split; apply map_eq; intros k; vm_compute; reflexivity. Qed.

(** *** Claims *)

Section ClaimProperties.
Import Leadership.
Variable maxDuration : Z.

Lemma wellFormedClaim_spec (svc u : string) (d : Z) :
  wellFormedClaim svc u d = true ↔ svc ≠ "" ∧ u ≠ "" ∧ (0 < d)%Z.
Proof.
  unfold wellFormedClaim.
  rewrite !andb_true_iff, !negb_true_iff, !String.eqb_neq, Z.ltb_lt.
  tauto.
Qed.

(** A malformed claim fails with [Invalid] and changes nothing. *)
Lemma Claim_invalid (st : Coordinator) (now : Z) (svc u : string) (d : Z) :
  wellFormedClaim svc u d = false →
  ClaimLeadership maxDuration st now svc u d = (inr Invalid, st).
Proof. intros Hw. unfold ClaimLeadership. by rewrite Hw. Qed.

Lemma Claim_fresh (st : Coordinator) (now : Z) (svc u : string) (d : Z) :
  wellFormedClaim svc u d = true →
  currentLease st now svc = None →
  ClaimLeadership maxDuration st now svc u d =
  (inl (now + Z.min d maxDuration - now)%Z,
   setLease st svc {| HolderUnitID := u;
                      ExpiryTimestamp := now + Z.min d maxDuration |}).
Proof. intros Hw Hl. unfold ClaimLeadership. by rewrite Hw, Hl. Qed.

Lemma Claim_renew (st : Coordinator) (now : Z) (svc u : string) (d : Z)
    (l : ServiceLeadershipLease) :
  wellFormedClaim svc u d = true →
  currentLease st now svc = Some l → HolderUnitID l = u →
  ClaimLeadership maxDuration st now svc u d =
  (inl (Z.max (ExpiryTimestamp l) (now + Z.min d maxDuration) - now)%Z,
   setLease st svc
     {| HolderUnitID := u;
        ExpiryTimestamp :=
          Z.max (ExpiryTimestamp l) (now + Z.min d maxDuration) |}).
Proof.
  intros Hw Hl Hu. unfold ClaimLeadership.
  by rewrite Hw, Hl, Hu, String.eqb_refl.
Qed.

Lemma Claim_held (st : Coordinator) (now : Z) (svc u u' : string) (d : Z) :
  wellFormedClaim svc u' d = true →
  holds st now svc u → u' ≠ u →
  ClaimLeadership maxDuration st now svc u' d = (inr LeaseHeld, st).
Proof.
  intros Hw (l & Hl & Hu)%holds_lease Hne. unfold ClaimLeadership.
  rewrite Hw, Hl, Hu. apply not_eq_sym, String.eqb_neq in Hne.
  by rewrite Hne.
Qed.

(** A successful claim was well formed, and leaves the lease with the
    claimant, until [now] plus the granted duration. *)
Lemma Claim_granted (st st' : Coordinator) (now : Z) (svc u : string)
    (d g : Z) :
  ClaimLeadership maxDuration st now svc u d = (inl g, st') →
  wellFormedClaim svc u d = true ∧
  leases st' = <[svc := {| HolderUnitID := u;
                           ExpiryTimestamp := now + g |}]> (leases st) ∧
  settings st' = settings st ∧
  ((∃ l, currentLease st now svc = Some l ∧ HolderUnitID l = u ∧
         (now + g = Z.max (ExpiryTimestamp l)
                      (now + Z.min d maxDuration))%Z) ∨
   (currentLease st now svc = None ∧ g = Z.min d maxDuration)).
Proof.
  unfold ClaimLeadership.
  destruct (wellFormedClaim svc u d); simpl; [|done].
  destruct (currentLease st now svc) as [l|] eqn:Hl.
  - destruct (String.eqb_spec (HolderUnitID l) u) as [Hu|Hu]; [|done].
    intros [= <- <-]. simpl.
    split_and!; [done | f_equal; f_equal; lia | done |].
    left. exists l. split_and!; [done..|lia].
  - intros [= <- <-]. simpl.
    split_and!; [done | f_equal; f_equal; lia | done |].
    right. split; [done | lia].
Qed.

(** A claim that fails changes nothing; it fails with [Invalid] when
    it is malformed, and otherwise with [LeaseHeld], against the
    unexpired lease of another unit. *)
Lemma Claim_refused (st st' : Coordinator) (now : Z) (svc u : string)
    (d : Z) (e : LeadershipError) :
  ClaimLeadership maxDuration st now svc u d = (inr e, st') →
  st' = st ∧
  ((e = Invalid ∧ wellFormedClaim svc u d = false) ∨
   (e = LeaseHeld ∧ wellFormedClaim svc u d = true ∧
    ∃ l, currentLease st now svc = Some l ∧ HolderUnitID l ≠ u)).
Proof.
  unfold ClaimLeadership.
  destruct (wellFormedClaim svc u d); simpl.
  - destruct (currentLease st now svc) as [l|] eqn:Hl; [|done].
    destruct (String.eqb_spec (HolderUnitID l) u) as [Hu|Hu]; [done|].
    intros [= <- <-]. split; [done|]. right. eauto.
  - intros [= <- <-]. split; [done|]. by left.
Qed.

Lemma Release_cases (st : Coordinator) (now : Z) (svc u : string) :
  (∃ l, currentLease st now svc = Some l ∧ HolderUnitID l = u ∧
        ReleaseLeadership st now svc u = (None, clearLease st svc)) ∨
  (∃ l, currentLease st now svc = Some l ∧ HolderUnitID l ≠ u ∧
        ReleaseLeadership st now svc u = (Some NotLeader, st)) ∨
  (currentLease st now svc = None ∧
   ReleaseLeadership st now svc u = (None, st)).
Proof.
  unfold ReleaseLeadership.
  destruct (currentLease st now svc) as [l|] eqn:Hl; [|by right; right].
  destruct (String.eqb_spec (HolderUnitID l) u) as [Hu|Hu].
  - left. eauto.
  - right. left. eauto.
Qed.

Lemma Merge_leases (st : Coordinator) (now : Z) (svc u : string)
    (updates : gmap string string) :
  leases (MergeLeadershipSettings st now svc u updates).2 = leases st.
Proof.
  unfold MergeLeadershipSettings.
  destruct (currentLease st now svc) as [l|]; [|done].
  by destruct (String.eqb (HolderUnitID l) u).
Qed.

(** No call stores a lease for an empty service or an empty unit. *)
Lemma apply_cleanLeases (st : Coordinator) (now : Z) (op : Op) :
  cleanLeases st → cleanLeases (apply maxDuration st now op).
Proof.
  intros Hclean. destruct op as [svc u d | svc u | svc u updates]; simpl.
  - destruct (ClaimLeadership maxDuration st now svc u d) as [[g|e] st']
      eqn:Hc; simpl.
    + apply Claim_granted in Hc as (Hw & Hl & _ & _).
      apply wellFormedClaim_spec in Hw as (Hsvc & Hu & _).
      intros svc' l. rewrite Hl. intros Hlk.
      apply lookup_insert_Some in Hlk as [[<- <-] | [_ Hlk]]; [done|].
      by apply Hclean.
    + by apply Claim_refused in Hc as [-> _].
  - destruct (Release_cases st now svc u)
      as [(l & _ & _ & ->) | [(l & _ & _ & ->) | [_ ->]]]; simpl;
      [|done..].
    intros svc' l'. cbn [clearLease leases].
    intros [_ Hlk]%lookup_delete_Some. by apply Hclean.
  - intros svc' l. rewrite Merge_leases. apply Hclean.
Qed.

Lemma reachable_cleanLeases (st : Coordinator) :
  reachable maxDuration st → cleanLeases st.
Proof.
  induction 1 as [|st now op _ IH]; [|by apply apply_cleanLeases].
  intros svc l Hl. cbn [initial leases] in Hl.
  by rewrite lookup_empty in Hl.
Qed.

End ClaimProperties.

(** C2.  When [ClaimLeadership svc u d1] has succeeded at [t1] with the
    duration [g1] and the same unit claims again with [d2] at an instant
    [t2] at which it still holds that lease (before the expiry
    [t1 + g1]), the lease is never shortened, whatever [d2] is: after
    the second call it is still with [u], and its expiry is not before
    the previous one.  For a duration [d2] above zero the second call
    succeeds as a renewal, and the new expiry [t2 + g2] is the later of
    the previous expiry and [t2 + min d2 maxDuration]; a [d2] of zero or
    less is a malformed request, which fails with [Invalid] and leaves
    the lease as it was. *)
Theorem renewal_never_shortens (maxDuration : Z)
    (st st1 : Leadership.Coordinator) (svc u : string)
    (t1 d1 g1 t2 d2 : Z) :
  Leadership.ClaimLeadership maxDuration st t1 svc u d1 = (inl g1, st1) →
  Leadership.holds st1 t2 svc u →
  ∃ (r : Z + Leadership.LeadershipError) (st2 : Leadership.Coordinator)
    (l1 l2 : Leadership.ServiceLeadershipLease),
    Leadership.ClaimLeadership maxDuration st1 t2 svc u d2 = (r, st2) ∧
    svc ≠ "" ∧ u ≠ "" ∧ (0 < d1)%Z ∧
    Leadership.leases st1 !! svc = Some l1 ∧
    Leadership.leases st2 !! svc = Some l2 ∧
    Leadership.HolderUnitID l1 = u ∧ Leadership.HolderUnitID l2 = u ∧
    Leadership.ExpiryTimestamp l1 = (t1 + g1)%Z ∧
    (t2 < Leadership.ExpiryTimestamp l1)%Z ∧
    (Leadership.ExpiryTimestamp l1 ≤ Leadership.ExpiryTimestamp l2)%Z ∧
    Leadership.holds st2 t2 svc u ∧
    ((0 < d2)%Z →
     ∃ g2 : Z,
       r = inl g2 ∧
       Leadership.ExpiryTimestamp l2 = (t2 + g2)%Z ∧
       Leadership.ExpiryTimestamp l2 =
         Z.max (Leadership.ExpiryTimestamp l1)
           (t2 + Z.min d2 maxDuration)) ∧
    ((d2 ≤ 0)%Z → r = inr Leadership.Invalid ∧ st2 = st1).
Proof.
  intros Hc1 Hholds. pose proof Hholds as (l & Hcur & Hu)%holds_lease.
  apply Claim_granted in Hc1 as (Hw1 & Hl1 & _ & _).
  apply wellFormedClaim_spec in Hw1 as (Hsvc & Hune & Hd1).
  set (l1 := {| Leadership.HolderUnitID := u;
                Leadership.ExpiryTimestamp := t1 + g1 |}) in *.
  assert (Leadership.leases st1 !! svc = Some l1) as Hlk
    by (by rewrite Hl1, lookup_insert_eq).
  pose proof Hcur as (Hlk' & Hne & Ht)%currentLease_Some.
  assert (l = l1) as -> by congruence.
  destruct (Z.ltb_spec 0 d2) as [Hd2|Hd2].
  - assert (Leadership.wellFormedClaim svc u d2 = true) as Hw2
      by (by apply wellFormedClaim_spec).
    eexists _, _, l1, _.
    split; [by apply (Claim_renew _ _ _ _ _ _ l1)|].
    simpl. rewrite lookup_insert_eq.
    split_and!; try done; simpl; try lia.
    + apply holds_lease.
      exists {| Leadership.HolderUnitID := u;
                Leadership.ExpiryTimestamp :=
                  Z.max (t1 + g1) (t2 + Z.min d2 maxDuration) |}.
      split; [|reflexivity].
      apply currentLease_Some. simpl. rewrite lookup_insert_eq.
      split_and!; [done | done | simpl in *; lia].
    + intros _. eexists. split; [reflexivity|]. simpl. split; [lia|done].
  - assert (Leadership.wellFormedClaim svc u d2 = false) as Hw2.
    { apply not_true_is_false. intros (_ & _ & ?)%wellFormedClaim_spec. lia. }
    exists (inr Leadership.Invalid), st1, l1, l1.
    split; [by apply Claim_invalid|].
    split_and!; try done; try lia.
Qed.

Lemma renewal_never_shortens_witness :
  ∃ (r : Z + Leadership.LeadershipError) (st2 : Leadership.Coordinator)
    (l1 l2 : Leadership.ServiceLeadershipLease),
    Leadership.ClaimLeadership 60
      (Leadership.ClaimLeadership 60 Leadership.initial 0
         "service-foo" "unit-foo-0" 30).2
      10 "service-foo" "unit-foo-0" 5 = (r, st2) ∧
    "service-foo" ≠ "" ∧ "unit-foo-0" ≠ "" ∧ (0 < 30)%Z ∧
    Leadership.leases
      (Leadership.ClaimLeadership 60 Leadership.initial 0
         "service-foo" "unit-foo-0" 30).2 !! "service-foo" = Some l1 ∧
    Leadership.leases st2 !! "service-foo" = Some l2 ∧
    Leadership.HolderUnitID l1 = "unit-foo-0" ∧
    Leadership.HolderUnitID l2 = "unit-foo-0" ∧
    Leadership.ExpiryTimestamp l1 = (0 + 30)%Z ∧
    (10 < Leadership.ExpiryTimestamp l1)%Z ∧
    (Leadership.ExpiryTimestamp l1 ≤ Leadership.ExpiryTimestamp l2)%Z ∧
    Leadership.holds st2 10 "service-foo" "unit-foo-0" ∧
    ((0 < 5)%Z →
     ∃ g2 : Z,
       r = inl g2 ∧
       Leadership.ExpiryTimestamp l2 = (10 + g2)%Z ∧
       Leadership.ExpiryTimestamp l2 =
         Z.max (Leadership.ExpiryTimestamp l1) (10 + Z.min 5 60)) ∧
    ((5 ≤ 0)%Z → r = inr Leadership.Invalid ∧
                 st2 = (Leadership.ClaimLeadership 60 Leadership.initial 0
                          "service-foo" "unit-foo-0" 30).2).
Proof.
  apply (renewal_never_shortens 60 Leadership.initial _
           "service-foo" "unit-foo-0" 0 30 30 10 5).
  - reflexivity.
  - reflexivity.
Defined.

(** The renewal of the example keeps the expiry at 30: asking for 5
    seconds at 10 grants the 20 that remain.  Asking for no time at all
    is refused, and so is a claim in nobody's name. *)
Example renewal_example :
  (Leadership.ClaimLeadership 60
     (Leadership.ClaimLeadership 60 Leadership.initial 0
        "service-foo" "unit-foo-0" 30).2
     10 "service-foo" "unit-foo-0" 5).1 = inl 20%Z ∧
  (Leadership.ClaimLeadership 60
     (Leadership.ClaimLeadership 60 Leadership.initial 0
        "service-foo" "unit-foo-0" 30).2
     10 "service-foo" "unit-foo-0" 0).1 = inr Leadership.Invalid ∧
  (Leadership.ClaimLeadership 60 Leadership.initial 0
     "service-foo" "" 30).1 = inr Leadership.Invalid.
Proof. split_and!; reflexivity. Qed.

(** *** Mutual exclusion *)

Section MutualExclusion.
Import Leadership.
Variable maxDuration : Z.

Lemma backed_later (st : Coordinator) (now now' : Z) (g : Grant) :
  (now ≤ now')%Z → backed st now g → backed st now' g.
Proof.
  intros Hle [Hu Hb]. split; [done|]. intros Ht. apply Hb. lia.
Qed.

(** A grant still running at [now] makes the lease of its service
    current, with the grant's unit as holder. *)
Lemma backed_current (st : Coordinator) (now : Z) (g : Grant) :
  backed st now g → (now < grantUntil g)%Z →
  ∃ l, currentLease st now (grantService g) = Some l ∧
       HolderUnitID l = grantUnit g ∧
       (grantUntil g ≤ ExpiryTimestamp l)%Z.
Proof.
  intros [Hu Hb] Ht. destruct (Hb Ht) as (l & Hl & Hh & He).
  exists l. split_and!; [|done..].
  apply currentLease_Some. split_and!; [done | congruence | lia].
Qed.

Lemma releasedBy_false (svc u : string) (g : Grant) :
  releasedBy svc u g = false → grantService g ≠ svc ∨ grantUnit g ≠ u.
Proof.
  unfold releasedBy. intros [H|H]%andb_false_iff;
    apply String.eqb_neq in H; auto.
Qed.

(** One call keeps every recorded grant backed. *)
Lemma record_backed (st : Coordinator) (grants : list Grant) (now : Z)
    (op : Op) :
  Forall (backed st now) grants →
  Forall (backed (apply maxDuration st now op) now)
    (record maxDuration st grants now op).
Proof.
  intros Hall. destruct op as [svc u d | svc u | svc u updates]; simpl.
  - destruct (ClaimLeadership maxDuration st now svc u d) as [[g|e] st']
      eqn:Hc; simpl.
    + apply Claim_granted in Hc as (Hw & Hl & _ & Hcase).
      apply wellFormedClaim_spec in Hw as (_ & Hu & _).
      constructor.
      * split; [done|]. intros _. simpl. rewrite Hl, lookup_insert_eq.
        eexists. split_and!; [done..|simpl; lia].
      * eapply Forall_impl; [exact Hall|]. intros g0 Hb.
        split; [apply Hb|]. intros Ht0.
        destruct (backed_current _ _ _ Hb Ht0) as (l0 & Hcur & Hh0 & He0).
        rewrite Hl. destruct (decide (svc = grantService g0)) as [->|Hne].
        -- rewrite lookup_insert_eq. eexists. split; [done|]. simpl.
           destruct Hcase as [(l & Hcur' & Hh & Hg) | [Hnone _]];
             [|congruence].
           assert (l = l0) as -> by congruence.
           split; [congruence | lia].
        -- rewrite lookup_insert_ne by done.
           apply currentLease_Some in Hcur as (? & _ & _). eauto.
    + apply Claim_refused in Hc as [-> _]. exact Hall.
  - destruct (Release_cases st now svc u)
      as [(l & Hcur & Hh & ->) | [(l & Hcur & Hh & ->) | [Hcur ->]]]; simpl.
    + apply Forall_forall. intros g0 [Hrel Hin]%list_elem_of_filter.
      rewrite Forall_forall in Hall.
      split; [apply (Hall g0 Hin)|]. intros Ht0.
      destruct (backed_current _ _ _ (Hall g0 Hin) Ht0)
        as (l0 & Hcur0 & Hh0 & He0).
      destruct (decide (grantService g0 = svc)) as [Heq|Hne].
      * rewrite Heq in Hcur0. assert (l0 = l) as -> by congruence.
        apply releasedBy_false in Hrel as [?|?]; congruence.
      * simpl. rewrite lookup_delete_ne by done.
        apply currentLease_Some in Hcur0 as (? & _ & _). eauto.
    + exact Hall.
    + apply Forall_forall. intros g0 [_ Hin]%list_elem_of_filter.
      rewrite Forall_forall in Hall. by apply Hall.
  - eapply Forall_impl; [exact Hall|]. intros g0 [Hu0 Hb].
    split; [done|]. rewrite Merge_leases. by apply Hb.
Qed.

Lemma history_backed (calls : list (Z * Op)) :
  ∀ (st : Coordinator) (grants : list Grant) (from t : Z),
    clockOrdered from calls t = true →
    Forall (backed st from) grants →
    Forall (backed (run maxDuration st calls) t)
      (history maxDuration st grants calls).
Proof.
  induction calls as [|c rest IH]; intros st grants from t Hclock Hall; simpl.
  - apply Z.leb_le in Hclock.
    eapply Forall_impl; [exact Hall|]. intros g. by apply backed_later.
  - simpl in Hclock. apply andb_prop in Hclock as [Hle Hrest].
    apply Z.leb_le in Hle.
    apply (IH _ _ c.1 t Hrest). apply record_backed.
    eapply Forall_impl; [exact Hall|]. intros g. by apply backed_later.
Qed.

(** A lease that is current later was current before. *)
Lemma currentLease_earlier (st : Coordinator) (now now' : Z) (svc : string)
    (l : ServiceLeadershipLease) :
  (now ≤ now')%Z → currentLease st now' svc = Some l →
  currentLease st now svc = Some l.
Proof.
  intros Hle (Hl & Hu & Ht)%currentLease_Some.
  apply currentLease_Some. split_and!; [done..|lia].
Qed.

Lemma covered_later (st : Coordinator) (now now' : Z) (grants : list Grant) :
  (now ≤ now')%Z → covered st now grants → covered st now' grants.
Proof.
  intros Hle Hc svc l Hcur. apply Hc. by eapply currentLease_earlier.
Qed.

Lemma currentLease_leases (st st' : Coordinator) (now : Z) (svc : string) :
  leases st' !! svc = leases st !! svc →
  currentLease st' now svc = currentLease st now svc.
Proof. unfold currentLease. by intros ->. Qed.

(** One call keeps every current lease covered by a grant. *)
Lemma record_covered (st : Coordinator) (grants : list Grant) (now : Z)
    (op : Op) :
  covered st now grants →
  covered (apply maxDuration st now op) now
    (record maxDuration st grants now op).
Proof.
  intros Hcov. destruct op as [svc u d | svc u | svc u updates]; simpl.
  - destruct (ClaimLeadership maxDuration st now svc u d) as [[g|e] st']
      eqn:Hc; simpl.
    + apply Claim_granted in Hc as (_ & Hl & _ & _).
      intros svc' l' Hcur. destruct (decide (svc = svc')) as [<-|Hne].
      * apply currentLease_Some in Hcur as (Hlk & _ & _).
        rewrite Hl, lookup_insert_eq in Hlk. injection Hlk as <-.
        eexists. split; [by left|]. done.
      * rewrite (currentLease_leases st) in Hcur
          by (by rewrite Hl, lookup_insert_ne).
        destruct (Hcov _ _ Hcur) as (g0 & Hin & Hg0).
        exists g0. split; [by right | done].
    + by apply Claim_refused in Hc as [-> _].
  - assert (∀ svc' l', svc' ≠ svc →
              currentLease st now svc' = Some l' →
              ∃ g, g ∈ filter (λ g, releasedBy svc u g = false) grants ∧
                   grantService g = svc' ∧
                   grantUnit g = HolderUnitID l' ∧
                   grantUntil g = ExpiryTimestamp l') as Hothers.
    { intros svc' l' Hne Hcur.
      destruct (Hcov _ _ Hcur) as (g0 & Hin & Hs & Hg0).
      exists g0. split; [|done]. apply list_elem_of_filter. split; [|done].
      unfold releasedBy. apply andb_false_iff. left.
      apply String.eqb_neq. congruence. }
    destruct (Release_cases st now svc u)
      as [(l & Hcur & Hh & ->) | [(l & Hcur & Hh & ->) | [Hcur ->]]]; simpl.
    + intros svc' l' Hcur'. destruct (decide (svc' = svc)) as [->|Hne].
      * apply currentLease_Some in Hcur' as (Hlk & _ & _).
        cbn [clearLease leases] in Hlk. by rewrite lookup_delete_eq in Hlk.
      * apply Hothers; [done|].
        rewrite <- Hcur'. symmetry. apply currentLease_leases.
        cbn [clearLease leases]. by rewrite lookup_delete_ne.
    + exact Hcov.
    + intros svc' l' Hcur'. destruct (decide (svc' = svc)) as [->|Hne];
        [congruence|]. by apply Hothers.
  - intros svc' l' Hcur. apply Hcov. rewrite <- Hcur. symmetry.
    apply currentLease_leases. by rewrite Merge_leases.
Qed.

Lemma history_covered (calls : list (Z * Op)) :
  ∀ (st : Coordinator) (grants : list Grant) (from t : Z),
    clockOrdered from calls t = true →
    covered st from grants →
    covered (run maxDuration st calls) t
      (history maxDuration st grants calls).
Proof.
  induction calls as [|c rest IH]; intros st grants from t Hclock Hcov; simpl.
  - apply Z.leb_le in Hclock. by eapply covered_later.
  - simpl in Hclock. apply andb_prop in Hclock as [Hle Hrest].
    apply Z.leb_le in Hle.
    apply (IH _ _ c.1 t Hrest). apply record_covered.
    by eapply covered_later.
Qed.

(** Whoever is in the winner set holds the lease in the table. *)
Lemma winners_hold (calls : list (Z * Op)) (svc : string) (from t : Z)
    (u : string) :
  clockOrdered from calls t = true →
  u ∈ winners maxDuration calls svc t →
  holds (run maxDuration initial calls) t svc u.
Proof.
  intros Hclock Hu. unfold winners in Hu.
  apply elem_of_list_to_set, list_elem_of_fmap in Hu as (g & -> & Hg).
  apply list_elem_of_filter in Hg as [Hwin Hin].
  unfold winning in Hwin. apply andb_prop in Hwin as [Hsvc Ht].
  apply String.eqb_eq in Hsvc. apply Z.ltb_lt in Ht.
  pose proof (history_backed calls initial [] from t Hclock (Forall_nil_2 _))
    as Hall.
  rewrite Forall_forall in Hall.
  destruct (backed_current _ _ _ (Hall g Hin) Ht) as (l & Hcur & Hh & _).
  apply holds_lease. exists l. by rewrite <- Hsvc.
Qed.

(** Whoever holds the lease in the table is in the winner set: the
    table gives no lease that no caller was told of. *)
Lemma holder_wins (calls : list (Z * Op)) (svc : string) (from t : Z)
    (u : string) :
  clockOrdered from calls t = true →
  holds (run maxDuration initial calls) t svc u →
  u ∈ winners maxDuration calls svc t.
Proof.
  intros Hclock (l & Hcur & Hu)%holds_lease.
  assert (covered initial from []) as Hcov0.
  { intros svc' l' (Hlk & _)%currentLease_Some.
    cbn [initial leases] in Hlk. by rewrite lookup_empty in Hlk. }
  destruct (history_covered calls initial [] from t Hclock Hcov0 _ _ Hcur)
    as (g & Hin & Hs & Hg & Ht).
  unfold winners. apply elem_of_list_to_set, list_elem_of_fmap.
  exists g. split; [congruence|]. apply list_elem_of_filter.
  split; [|done]. unfold winning. apply andb_true_intro.
  apply currentLease_Some in Hcur as (_ & _ & Hlt).
  split; [by apply String.eqb_eq | apply Z.ltb_lt; lia].
Qed.

Lemma winners_at_most_one (calls : list (Z * Op)) (svc : string)
    (from t : Z) :
  clockOrdered from calls t = true →
  (size (winners maxDuration calls svc t) ≤ 1)%nat.
Proof.
  intros Hclock.
  destruct (set_choose_or_empty (winners maxDuration calls svc t))
    as [[u Hu] | Hempty].
  - assert (winners maxDuration calls svc t ≡ {[ u ]}) as ->.
    { apply set_equiv. intros u'. rewrite elem_of_singleton. split.
      - intros Hu'. eapply holds_unique; by eapply winners_hold.
      - by intros ->. }
    by rewrite size_singleton.
  - rewrite Hempty, size_empty. lia.
Qed.

Lemma reachable_run (calls : list (Z * Op)) (st : Coordinator) :
  reachable maxDuration st → reachable maxDuration (run maxDuration st calls).
Proof.
  revert st. induction calls as [|c rest IH]; intros st Hr; simpl; [done|].
  apply IH. by constructor.
Qed.

End MutualExclusion.

(** C1.  At most one unit holds an unexpired lease on a service at any
    observed instant.  For calls linearized along the clock, the winner
    set at an instant [t] after them (every unit told, by a successful
    claim not since released, that it leads until after [t]) has at
    most one member, and its members are exactly the holders the table
    gives at [t]: no unit was told of a lease the table does not give
    it, and the table gives no lease that nobody was told of.  A
    reachable state stores no lease for an empty service or an empty
    unit.  And in a reachable state a claim by another unit than the
    holder fails and leaves the state, and so the holder, as it was:
    with [LeaseHeld] when the request is well formed (a unit and a
    duration above zero were given), with [Invalid] when it is not. *)
Theorem lease_mutual_exclusion (maxDuration : Z) :
  (∀ (from t : Z) (calls : list (Z * Leadership.Op)) (svc : string),
      Leadership.clockOrdered from calls t = true →
      (size (Leadership.winners maxDuration calls svc t) ≤ 1)%nat ∧
      ∀ u, u ∈ Leadership.winners maxDuration calls svc t ↔
           Leadership.holds
             (Leadership.run maxDuration Leadership.initial calls) t svc u) ∧
  (∀ st : Leadership.Coordinator,
      Leadership.reachable maxDuration st →
      ∀ (svc : string) (l : Leadership.ServiceLeadershipLease),
        Leadership.leases st !! svc = Some l →
        svc ≠ "" ∧ Leadership.HolderUnitID l ≠ "") ∧
  (∀ st : Leadership.Coordinator,
      Leadership.reachable maxDuration st →
      ∀ (svc : string) (now : Z) (u u' : string) (d : Z),
        Leadership.holds st now svc u → u' ≠ u →
        Leadership.ClaimLeadership maxDuration st now svc u' d
        = (inr (if decide (u' ≠ "" ∧ (0 < d)%Z)
                then Leadership.LeaseHeld else Leadership.Invalid), st) ∧
        Leadership.holds
          (Leadership.ClaimLeadership maxDuration st now svc u' d).2
          now svc u).
Proof.
  split_and!.
  - intros from t calls svc Hclock. split.
    + by eapply winners_at_most_one.
    + intros u. split; [by eapply winners_hold | by eapply holder_wins].
  - intros st Hreach. by apply (reachable_cleanLeases maxDuration).
  - intros st Hreach svc now u u' d Hh Hne.
    assert (svc ≠ "") as Hsvc.
    { pose proof Hh as (l & (Hl & _)%currentLease_Some & _)%holds_lease.
      by apply (reachable_cleanLeases maxDuration st Hreach svc l). }
    destruct (decide (u' ≠ "" ∧ (0 < d)%Z)) as [[Hu' Hd]|Hbad].
    + rewrite (Claim_held maxDuration st now svc u u' d); [done| |done..].
      by apply wellFormedClaim_spec.
    + rewrite Claim_invalid; [done|].
      apply not_true_is_false.
      intros (_ & ? & ?)%wellFormedClaim_spec. by apply Hbad.
Qed.

Lemma lease_mutual_exclusion_witness :
  (size (Leadership.winners 60 Leadership.rivalClaims "service-foo" 10)
   ≤ 1)%nat ∧
  Leadership.ClaimLeadership 60
    (Leadership.run 60 Leadership.initial
       [(0%Z, Leadership.OpClaim "service-foo" "unit-foo-0" 30)])
    5 "service-foo" "unit-foo-1" 30
  = (inr Leadership.LeaseHeld,
     Leadership.run 60 Leadership.initial
       [(0%Z, Leadership.OpClaim "service-foo" "unit-foo-0" 30)]).
Proof.
  split.
  - apply (proj1 (proj1 (lease_mutual_exclusion 60) 0%Z 10%Z
                    Leadership.rivalClaims "service-foo" eq_refl)).
  - apply (proj1 (proj2 (proj2 (lease_mutual_exclusion 60))
             (Leadership.run 60 Leadership.initial
                [(0%Z, Leadership.OpClaim "service-foo" "unit-foo-0" 30)])
             (reachable_run 60 _ _ (Leadership.reach_initial 60))
             "service-foo" 5%Z "unit-foo-0" "unit-foo-1" 30%Z
             eq_refl ltac:(discriminate))).
Defined.

(** In that run the first claimant is the one winner at 10; the second
    was refused. *)
Example rivalClaims_winner :
  elements (Leadership.winners 60 Leadership.rivalClaims "service-foo" 10)
  = ["unit-foo-0"].
Proof. vm_compute. reflexivity. Qed.

(** A claim in nobody's name wins nothing: it is refused, and the unit
    that claims next is the one winner. *)
Example nobody_wins :
  elements
    (Leadership.winners 60
       [ (0%Z, Leadership.OpClaim "service-foo" "" 30);
         (5%Z, Leadership.OpClaim "service-foo" "unit-foo-1" 30) ]
       "service-foo" 10)
  = ["unit-foo-1"].
Proof. vm_compute. reflexivity. Qed.

(** The rest of the release scenario: a non-holder's release fails with
    [NotLeader]; the holder's clears the lease, and a third unit's claim
    right after succeeds. *)
Example release_scenario :
  Leadership.ReleaseLeadership Leadership.heldByFoo0 1
    "service-foo" "unit-foo-1"
  = (Some Leadership.NotLeader, Leadership.heldByFoo0) ∧
  (Leadership.ClaimLeadership 60
     (Leadership.ReleaseLeadership Leadership.heldByFoo0 1
        "service-foo" "unit-foo-0").2
     1 "service-foo" "unit-foo-2" 30).1 = inl 30%Z.
Proof. split; reflexivity. Qed.

(** ** Bulk operations *)

Section EachElement.
Import Leadership LeadershipService.
Context {P R : Type}.
Variable one : Coordinator → Z → P → R * Coordinator.
Variable now : Z.




(** When failing leaves the state alone, a failing element can be
    taken out of the request without any change to the others. *)
Variable failed : R → Prop.
Hypothesis failed_unchanged :
  ∀ st p, failed (one st now p).1 → (one st now p).2 = st.


(** When the answer to an element depends on the lease of its own
    service only, and an operation leaves the leases of other services
    alone, elements for other services do not bear on it. *)
Variable service : P → string.
Hypothesis one_local :
  ∀ st st' p, leases st !! service p = leases st' !! service p →
              (one st now p).1 = (one st' now p).1.
Hypothesis one_frame :
  ∀ st p svc, svc ≠ service p →
              leases (one st now p).2 !! svc = leases st !! svc.



End EachElement.

Section BulkProperties.
Import Leadership LeadershipService.
Variables maxDuration claimDuration : Z.









End BulkProperties.



(** The bulk claim of the design document: [svcA] and [svcC] are
    granted and [svcB], held by [u3], is refused with [LeaseHeld],
    which the requests around it do not feel. *)
Example bulk_claim_scenario :
  let out := LeadershipService.ClaimLeadershipBulk 60 30
               LeadershipService.svcBHeld 0 LeadershipService.threeClaims in
  (λ r, (ClaimLeadershipResults.ServiceTag r, ClaimLeadershipResults.Error r))
    <$> ClaimLeadershipBulkResults.Results out.1
  = [ ("svcA", None);
      ("svcB", Some (LeadershipService.serverError Leadership.LeaseHeld));
      ("svcC", None) ] ∧
  Leadership.holder out.2 1 "svcA" = Some "u1" ∧
  Leadership.holder out.2 1 "svcB" = Some "u3" ∧
  Leadership.holder out.2 1 "svcC" = Some "u1".
Proof. vm_compute. by split_and!. Qed.


(** ** The worker execution engine *)

Section EngineProperties.
Import Worker.
Context {H : Type} (handler : Handler H).


Lemma Wait_finish (w : WorkerHandle H) (r : result) :
  Wait (finish handler w r) = Some r.
Proof. done. Qed.



(** [TearDown] has run exactly once when the worker is [Stopped], and
    not before. *)
Lemma react_tornDown (w : WorkerHandle H) (ev : Event) :
  (tornDown w = match state w with Stopped _ => 1 | _ => 0 end) →
  tornDown (react handler w ev) =
  match state (react handler w ev) with Stopped _ => 1 | _ => 0 end.
Proof.
  intros Hw. unfold react, handleOne.
  destruct (state w) eqn:Hs; try by rewrite Hs.
  destruct ev; simpl.
  - destruct (HandleChange handler (handlerState w)) as [[e|] h1]; simpl;
      by rewrite Hw.
  - by rewrite Hw.
Qed.

Lemma TearDown_once (h : H) (events : list Event) :
  tornDown (runTask handler h events) =
  match state (runTask handler h events) with Stopped _ => 1 | _ => 0 end.
Proof.
  unfold runTask.
  assert (tornDown (setUp handler (Start h)) =
          match state (setUp handler (Start h)) with
          | Stopped _ => 1 | _ => 0 end) as Hstart.
  { unfold setUp, handleOne. simpl.
    destruct (SetUp handler h) as [[e|] h1]; simpl; [done|].
    by destruct (HandleChange handler h1) as [[e|] h2]. }
  revert Hstart. generalize (setUp handler (Start h)).
  induction events as [|ev rest IH]; intros w Hw; simpl; [done|].
  apply IH. by apply react_tornDown.
Qed.

End EngineProperties.

Section EntityWorker.
Import Worker.
Variable Call : nat → option CallError.



End EntityWorker.



(** A transient failure of the same call is not the terminate signal:
    it reaches [Wait] as the error it is. *)
Example transient_error_verbatim :
  let e := {| Worker.class := Worker.Transient;
              Worker.message := "connection is shut down" |} in
  Worker.Wait (Worker.runTask (Worker.entityWorker (λ _, Some e)) 0 [])
  = Some (Some (Worker.ErrOrdinary e)).
Proof. reflexivity. Qed.

(* ===================================================================== *)
(** * Further properties of the sources *)
(* ===================================================================== *)

(** ** The HTTP storage backend: requests, answers and the store *)

Section ServeHTTPAnswers.
Import GoStrings HttpStorage.
Context {S : Type} `{StorageOps S}.

Lemma substring_all (s : string) : substring 0 (String.length s) s = s.
Proof. induction s as [|c s IH]; simpl; [done | by f_equal]. Qed.

(** [path[1:]] of a path with a first byte is the rest of it. *)
Lemma slice_tail (c : ascii) (rest : string) :
  slice (String c rest) 1 (String.length (String c rest)) = Some rest.
Proof.
  unfold slice.
  assert ((1 <=? String.length (String c rest))%nat
          && (String.length (String c rest)
              <=? String.length (String c rest))%nat = true) as ->.
  { apply andb_true_intro. split; apply Nat.leb_le; simpl; lia. }
  simpl. rewrite Nat.sub_0_r. by rewrite substring_all.
Qed.

Lemma rooted_inv (path : string) :
  HasPrefix path "/" = true → ∃ rest, path = String "/" rest.
Proof.
  destruct path as [|c rest]; simpl; [done|].
  destruct (Ascii.eqb_spec c "/") as [->|]; [eauto | done].
Qed.

(** A rooted path that ends in [*] has a byte between the two. *)
Lemma slice_list_prefix (rest : string) :
  HasSuffix (String "/" rest) "*" = true →
  is_Some (slice (String "/" rest) 1 (String.length (String "/" rest) - 1)).
Proof.
  destruct rest as [|c rest]; [done|]. intros _. unfold slice.
  assert ((1 <=? String.length (String "/" (String c rest)) - 1)%nat
          && (String.length (String "/" (String c rest)) - 1
              <=? String.length (String "/" (String c rest)))%nat = true)
    as ->; [|done].
  apply andb_true_intro. split; apply Nat.leb_le; simpl; lia.
Qed.

Lemma status_WriteHeader (w : ResponseWriter) (code : Z) :
  status w = None → status (WriteHeader w code) = Some code.
Proof. intros Hw. unfold WriteHeader. by rewrite Hw. Qed.

Lemma status_Header_Set (w : ResponseWriter) (key value : string) :
  status (Header_Set w key value) = status w.
Proof. unfold Header_Set. by destruct (status w) eqn:Hw. Qed.

Lemma header_Header_Set (w : ResponseWriter) (key value : string) :
  status w = None →
  header (Header_Set w key value) = <[key := [value]]> (header w).
Proof. intros Hw. unfold Header_Set. by rewrite Hw. Qed.

Lemma written_Header_Set (w : ResponseWriter) (key value : string) :
  written (Header_Set w key value) = written w.
Proof. unfold Header_Set. by destruct (status w) eqn:Hw. Qed.

Lemma header_WriteHeader (w : ResponseWriter) (code : Z) :
  header (WriteHeader w code) = header w.
Proof. unfold WriteHeader. by destruct (status w) eqn:Hw. Qed.

Lemma written_WriteHeader (w : ResponseWriter) (code : Z) :
  written (WriteHeader w code) = written w.
Proof. unfold WriteHeader. by destruct (status w) eqn:Hw. Qed.

Lemma written_Write (w : ResponseWriter) (data : string) :
  written (Write w data) = written w +:+ data.
Proof. unfold Write. simpl. by rewrite written_WriteHeader. Qed.

Lemma written_Error (w : ResponseWriter) (msg : string) (code : Z) :
  written (Error w msg code) = written w +:+ msg +:+ String "010" "".
Proof.
  unfold Error.
  by rewrite written_Write, written_WriteHeader, written_Header_Set.
Qed.

Lemma status_Write (w : ResponseWriter) (data : string) :
  status w = None → status (Write w data) = Some StatusOK.
Proof. intros Hw. unfold Write, WriteHeader. by rewrite Hw. Qed.

Ltac answered :=
  repeat match goal with
  | |- context [status (Error _ _ _)] => rewrite Error_status by done
  | |- context [status (Write _ _)] =>
      rewrite status_Write by (by rewrite ?status_Header_Set)
  | |- context [status (WriteHeader _ _)] =>
      rewrite status_WriteHeader by (by rewrite ?status_Header_Set)
  end.

Ltac codes :=
  answered; eexists; (split; [reflexivity|]);
  unfold answerCodes, StatusOK, StatusCreated, StatusUnauthorized,
    StatusNotFound, StatusMethodNotAllowed, StatusInternalServerError;
  set_solver.

Lemma handleGet_status (s : storageBackend S) (w w' : ResponseWriter)
    (req : Request) (st : S) :
  status w = None → handleGet s w req = Some (w', st) →
  ∃ code, status w' = Some code ∧ code ∈ answerCodes.
Proof.
  intros Hw. unfold handleGet.
  destruct (slice _ _ _) as [name|]; simpl; [|done].
  destruct (Get name (backend s)) as [[rc|err] st1];
    [destruct (readError rc)|]; intros [= <- <-]; codes.
Qed.

Lemma handleList_status (s : storageBackend S) (w w' : ResponseWriter)
    (req : Request) (st : S) :
  status w = None → handleList s w req = Some (w', st) →
  ∃ code, status w' = Some code ∧ code ∈ answerCodes.
Proof.
  intros Hw. unfold handleList.
  destruct (slice _ _ _) as [prefix|]; simpl; [|done].
  destruct (List prefix (backend s)) as [[names|err] st1];
    intros [= <- <-]; codes.
Qed.

Lemma handleHead_status (s : storageBackend S) (w w' : ResponseWriter)
    (req : Request) (st : S) :
  status w = None → handleHead s w req = Some (w', st) →
  ∃ code, status w' = Some code ∧ code ∈ answerCodes.
Proof.
  intros Hw. unfold handleHead.
  destruct (negb _); intros [= <- <-]; codes.
Qed.

Lemma handlePut_status (s : storageBackend S) (w w' : ResponseWriter)
    (req : Request) (st : S) :
  status w = None → handlePut s w req = Some (w', st) →
  ∃ code, status w' = Some code ∧ code ∈ answerCodes.
Proof.
  intros Hw. unfold handlePut.
  destruct (ContentLength req <? 0)%Z; [intros [= <- <-]; codes|].
  destruct (slice _ _ _) as [name|]; simpl; [|done].
  destruct (Put name _ _ (backend s)) as [[err|] st1];
    intros [= <- <-]; codes.
Qed.

Lemma handleDelete_status (s : storageBackend S) (w w' : ResponseWriter)
    (req : Request) (st : S) :
  status w = None → handleDelete s w req = Some (w', st) →
  ∃ code, status w' = Some code ∧ code ∈ answerCodes.
Proof.
  intros Hw. unfold handleDelete.
  destruct (negb _); [intros [= <- <-]; codes|].
  destruct (slice _ _ _) as [name|]; simpl; [|done].
  destruct (Remove name (backend s)) as [[err|] st1];
    intros [= <- <-]; codes.
Qed.

Lemma dispatch_status (s : storageBackend S) (w w' : ResponseWriter)
    (req : Request) (st : S) :
  status w = None → dispatch s w req = Some (w', st) →
  ∃ code, status w' = Some code ∧ code ∈ answerCodes.
Proof.
  intros Hw. unfold dispatch.
  destruct (String.eqb (Method req) "GET").
  { destruct (HasSuffix _ _);
      [by apply handleList_status | by apply handleGet_status]. }
  destruct (String.eqb (Method req) "HEAD"); [by apply handleHead_status|].
  destruct (String.eqb (Method req) "PUT"); [by apply handlePut_status|].
  destruct (String.eqb (Method req) "DELETE");
    [by apply handleDelete_status|].
  intros [= <- <-]. codes.
Qed.

Lemma dispatch_rooted (s : storageBackend S) (w : ResponseWriter)
    (req : Request) :
  HasPrefix (Path (Url req)) "/" = true → is_Some (dispatch s w req).
Proof.
  intros (rest & Hpath)%rooted_inv.
  unfold dispatch, handleList, handleGet, handleHead, handlePut,
    handleDelete.
  destruct (String.eqb (Method req) "GET").
  { destruct (HasSuffix _ _) eqn:Hsuffix.
    - rewrite Hpath in Hsuffix |- *.
      destruct (slice_list_prefix rest Hsuffix) as [prefix ->]. simpl.
      by destruct (List prefix (backend s)) as [[names|err] st1].
    - rewrite Hpath, slice_tail. simpl.
      destruct (Get rest (backend s)) as [[rc|err] st1];
        [by destruct (readError rc) | done]. }
  destruct (String.eqb (Method req) "HEAD"); [by destruct (negb _)|].
  destruct (String.eqb (Method req) "PUT").
  { destruct (ContentLength req <? 0)%Z; [done|].
    rewrite Hpath, slice_tail. simpl.
    by destruct (Put rest _ _ (backend s)) as [[err|] st1]. }
  destruct (String.eqb (Method req) "DELETE"); [|done].
  destruct (negb _); [done|].
  rewrite Hpath, slice_tail. simpl.
  by destruct (Remove rest (backend s)) as [[err|] st1].
Qed.

Lemma ServeHTTP_dispatch (s : storageBackend S) (w : ResponseWriter)
    (req : Request) :
  Method req ≠ "PUT" → Method req ≠ "DELETE" →
  ServeHTTP s w req = dispatch s w req.
Proof.
  intros Hp Hd. unfold ServeHTTP.
  apply String.eqb_neq in Hp, Hd. by rewrite Hp, Hd.
Qed.

Lemma ServeHTTP_cases (s : storageBackend S) (w : ResponseWriter)
    (req : Request) :
  ServeHTTP s w req =
    Some (Error w "unauthorised access" StatusUnauthorized, backend s) ∨
  ServeHTTP s w req = dispatch s w req.
Proof.
  unfold ServeHTTP. destruct (_ || _); [|by right].
  destruct (_ || _); [by left | by right].
Qed.

End ServeHTTPAnswers.

(** X1.  [ServeHTTP] never panics on a request whose path begins with a
    slash, as every path the mux hands over does: whatever the method,
    the backend and the store, the handler returns with a response.  The
    slash is needed: a GET of the empty path panics in [Path[1:]]. *)
Theorem ServeHTTP_returns_on_rooted_paths {S : Type}
    `{HttpStorage.StorageOps S}
    (s : HttpStorage.storageBackend S) (w : HttpStorage.ResponseWriter)
    (req : HttpStorage.Request) :
  (GoStrings.HasPrefix (HttpStorage.Path (HttpStorage.Url req)) "/" = true →
   ∃ (w' : HttpStorage.ResponseWriter) (st : S),
     HttpStorage.ServeHTTP s w req = Some (w', st)) ∧
  (HttpStorage.Method req = "GET" →
   HttpStorage.Path (HttpStorage.Url req) = "" →
   HttpStorage.ServeHTTP s w req = None).
Proof.
  split.
  - intros Hroot.
    destruct (ServeHTTP_cases s w req) as [-> | ->]; [eauto|].
    destruct (dispatch_rooted s w req Hroot) as [[w' st] ->]. eauto.
  - intros Hm Hpath. rewrite ServeHTTP_dispatch by (by rewrite Hm).
    unfold HttpStorage.dispatch, HttpStorage.handleGet.
    by rewrite Hm, Hpath.
Qed.

Lemma ServeHTTP_returns_on_rooted_paths_witness :
  ∃ (w' : HttpStorage.ResponseWriter) (st : HttpStorage.memStore),
    HttpStorage.ServeHTTP HttpStorage.guardedBackend HttpStorage.newResponse
      HttpStorage.deleteWithWrongKey = Some (w', st).
Proof.
  apply (proj1 (ServeHTTP_returns_on_rooted_paths HttpStorage.guardedBackend
                  HttpStorage.newResponse HttpStorage.deleteWithWrongKey)).
  reflexivity.
Defined.

(** X2.  Every response [ServeHTTP] leaves on a writer that had sent no
    header has its status line sent, with one of the codes 200, 201,
    401, 404, 405 and 500. *)
Theorem ServeHTTP_always_sends_a_status {S : Type}
    `{HttpStorage.StorageOps S}
    (s : HttpStorage.storageBackend S) (w w' : HttpStorage.ResponseWriter)
    (req : HttpStorage.Request) (st : S) :
  HttpStorage.status w = None →
  HttpStorage.ServeHTTP s w req = Some (w', st) →
  ∃ code : Z,
    HttpStorage.status w' = Some code ∧
    code ∈ [200; 201; 401; 404; 405; 500]%Z.
Proof.
  intros Hw.
  destruct (ServeHTTP_cases s w req) as [-> | ->].
  - intros [= <- <-]. rewrite Error_status by done.
    eexists. split; [reflexivity|]. set_solver.
  - apply dispatch_status. done.
Qed.

Lemma ServeHTTP_always_sends_a_status_witness :
  ∃ code : Z,
    HttpStorage.status
      (HttpStorage.Error HttpStorage.newResponse "unauthorised access" 401)
    = Some code ∧
    code ∈ [200; 201; 401; 404; 405; 500]%Z.
Proof.
  apply (ServeHTTP_always_sends_a_status HttpStorage.guardedBackend
           HttpStorage.newResponse _ HttpStorage.deleteWithWrongKey
           (HttpStorage.backend HttpStorage.guardedBackend)).
  - reflexivity.
  - reflexivity.
Defined.

(** X3.  A request whose method is not GET, PUT or DELETE never reaches
    the store: [ServeHTTP] returns with the store as it was.  A HEAD
    request to a backend with an HTTPS base URL is answered 200 with
    that URL and the path in the [Location] header; a HEAD request to
    any other backend, and every other such method, is answered 405. *)
Theorem ServeHTTP_without_the_store {S : Type} `{HttpStorage.StorageOps S}
    (s : HttpStorage.storageBackend S) (w : HttpStorage.ResponseWriter)
    (req : HttpStorage.Request) :
  HttpStorage.Method req ≠ "GET" →
  HttpStorage.Method req ≠ "PUT" →
  HttpStorage.Method req ≠ "DELETE" →
  HttpStorage.status w = None →
  ∃ w' : HttpStorage.ResponseWriter,
    HttpStorage.ServeHTTP s w req = Some (w', HttpStorage.backend s) ∧
    (HttpStorage.Method req = "HEAD" → HttpStorage.httpsBaseURL s ≠ "" →
     HttpStorage.status w' = Some 200%Z ∧
     HttpStorage.header w' !! "Location" =
     Some [HttpStorage.httpsBaseURL s
           +:+ HttpStorage.Path (HttpStorage.Url req)] ∧
     HttpStorage.written w' = HttpStorage.written w) ∧
    (HttpStorage.Method req ≠ "HEAD" ∨ HttpStorage.httpsBaseURL s = "" →
     HttpStorage.status w' = Some 405%Z).
Proof.
  intros Hg Hp Hd Hw. rewrite ServeHTTP_dispatch by done.
  unfold HttpStorage.dispatch.
  apply String.eqb_neq in Hg, Hp, Hd. rewrite Hg, Hp, Hd.
  destruct (String.eqb_spec (HttpStorage.Method req) "HEAD") as [Hh|Hh].
  - unfold HttpStorage.handleHead.
    destruct (String.eqb_spec (HttpStorage.httpsBaseURL s) "") as [Hb|Hb];
      simpl; eexists; (split; [reflexivity|]); split.
    + intros _ Hne. by destruct Hne.
    + intros _. by rewrite Error_status.
    + intros _ _.
      rewrite status_WriteHeader by (by rewrite status_Header_Set).
      rewrite header_WriteHeader, header_Header_Set by done.
      rewrite written_WriteHeader, written_Header_Set.
      by rewrite lookup_insert_eq.
    + intros [Hne | He]; [by destruct Hne | by destruct Hb].
  - eexists. split; [reflexivity|]. split.
    + intros Heq. by destruct Hh.
    + intros _. by rewrite Error_status.
Qed.

Lemma ServeHTTP_without_the_store_witness :
  ∃ w' : HttpStorage.ResponseWriter,
    HttpStorage.ServeHTTP HttpStorage.guardedBackend HttpStorage.newResponse
      HttpStorage.headOfTools
    = Some (w', HttpStorage.backend HttpStorage.guardedBackend) ∧
    (HttpStorage.Method HttpStorage.headOfTools = "HEAD" →
     HttpStorage.httpsBaseURL HttpStorage.guardedBackend ≠ "" →
     HttpStorage.status w' = Some 200%Z ∧
     HttpStorage.header w' !! "Location" =
     Some [HttpStorage.httpsBaseURL HttpStorage.guardedBackend
           +:+ HttpStorage.Path (HttpStorage.Url HttpStorage.headOfTools)] ∧
     HttpStorage.written w' = HttpStorage.written HttpStorage.newResponse) ∧
    (HttpStorage.Method HttpStorage.headOfTools ≠ "HEAD" ∨
     HttpStorage.httpsBaseURL HttpStorage.guardedBackend = "" →
     HttpStorage.status w' = Some 405%Z).
Proof.
  apply (ServeHTTP_without_the_store HttpStorage.guardedBackend
           HttpStorage.newResponse HttpStorage.headOfTools).
  - discriminate.
  - discriminate.
  - discriminate.
  - reflexivity.
Defined.

(** X4.  An authorised PUT to a backend without an HTTPS base URL: with
    a negative [Content-Length] it is answered 500 and the store is not
    asked, whatever the path; otherwise the body goes to the store under
    the path without its leading slash, with the declared length, and
    the answer is 201 when the store took it and 500 with the store's
    error message and a newline when it did not. *)
Theorem ServeHTTP_put {S : Type} `{HttpStorage.StorageOps S}
    (s : HttpStorage.storageBackend S) (w : HttpStorage.ResponseWriter)
    (req : HttpStorage.Request) :
  HttpStorage.Method req = "PUT" →
  HttpStorage.httpsBaseURL s = "" →
  HttpStorage.authorised s req = true →
  HttpStorage.status w = None →
  ((HttpStorage.ContentLength req < 0)%Z →
   ∃ w', HttpStorage.ServeHTTP s w req = Some (w', HttpStorage.backend s) ∧
         HttpStorage.status w' = Some 500%Z) ∧
  ((0 ≤ HttpStorage.ContentLength req)%Z →
   ∀ name : string,
     HttpStorage.Path (HttpStorage.Url req) = String "/" name →
     let put := HttpStorage.Put name (HttpStorage.Body req)
                  (HttpStorage.ContentLength req) (HttpStorage.backend s) in
     ∃ w', HttpStorage.ServeHTTP s w req = Some (w', put.2) ∧
           match put.1 with
           | None => HttpStorage.status w' = Some 201%Z ∧
                     HttpStorage.written w' = HttpStorage.written w
           | Some err =>
               HttpStorage.status w' = Some 500%Z ∧
               HttpStorage.written w' =
               HttpStorage.written w +:+ err +:+ String "010" ""
           end).
Proof.
  intros Hm Hb Ha Hw.
  assert (HttpStorage.ServeHTTP s w req = HttpStorage.handlePut s w req)
    as ->.
  { unfold HttpStorage.ServeHTTP, HttpStorage.dispatch.
    by rewrite Hm, Hb, Ha. }
  unfold HttpStorage.handlePut. split.
  - intros Hneg. apply Z.ltb_lt in Hneg. rewrite Hneg.
    eexists. split; [reflexivity|]. by rewrite Error_status.
  - intros Hpos name Hpath. cbv zeta.
    apply Z.ltb_ge in Hpos. rewrite Hpos, Hpath, slice_tail. simpl.
    destruct (HttpStorage.Put name _ _ _) as [[err|] st1]; simpl;
      eexists; (split; [reflexivity|]).
    + split; [by rewrite Error_status | by rewrite written_Error].
    + split; [by rewrite status_WriteHeader | by rewrite written_WriteHeader].
Qed.

Lemma ServeHTTP_put_witness :
  ∃ w' : HttpStorage.ResponseWriter,
    HttpStorage.ServeHTTP HttpStorage.guardedBackend HttpStorage.newResponse
      HttpStorage.putWithKey
    = Some (w', (HttpStorage.Put "tools/juju.tgz" "juju!" 5
                   (HttpStorage.backend HttpStorage.guardedBackend)).2) ∧
    HttpStorage.status w' = Some 201%Z ∧
    HttpStorage.written w' = "".
Proof.
  exact (proj2 (ServeHTTP_put HttpStorage.guardedBackend
                  HttpStorage.newResponse HttpStorage.putWithKey
                  eq_refl eq_refl eq_refl eq_refl)
           ltac:(simpl; lia) "tools/juju.tgz" eq_refl).
Defined.

(** A path that ends in a star, without its slash and its star:
    [Path[1 : len(Path)-1]]. *)
Lemma star_suffix_inv (name : string) :
  name ≠ "" →
  String.eqb (substring (String.length name - 1) 1 name) "*" = true →
  ∃ prefix, name = prefix +:+ "*" ∧
            substring 0 (String.length name - 1) name = prefix.
Proof.
  induction name as [|c rest IH]; [done|]. intros _.
  destruct rest as [|d r].
  - simpl. destruct (Ascii.eqb_spec c "*") as [->|Hc]; [|done].
    intros _. by exists "".
  - replace (String.length (String c (String d r)) - 1)%nat
      with (S (String.length (String d r) - 1)) by (simpl; lia).
    cbn [substring]. intros Hlast.
    destruct (IH ltac:(done) Hlast) as (prefix & Hname & Hsub).
    exists (String c prefix). rewrite append_cons. split; by f_equal.
Qed.

Lemma slice_starred (name : string) :
  GoStrings.HasSuffix (String "/" name) "*" = true →
  ∃ prefix, name = prefix +:+ "*" ∧
            GoStrings.slice (String "/" name) 1
              (String.length (String "/" name) - 1) = Some prefix.
Proof.
  unfold GoStrings.HasSuffix. intros [_ Hlast]%andb_prop.
  destruct name as [|c rest]; [done|].
  replace (String.length (String "/" (String c rest))
           - String.length "*")%nat
    with (S (String.length (String c rest) - 1)) in Hlast
    by (simpl; lia).
  cbn [substring] in Hlast.
  destruct (star_suffix_inv (String c rest) ltac:(done) Hlast)
    as (prefix & Hname & Hsub).
  exists prefix. split; [done|]. unfold GoStrings.slice.
  assert ((1 <=? String.length (String "/" (String c rest)) - 1)%nat
          && (String.length (String "/" (String c rest)) - 1
              <=? String.length (String "/" (String c rest)))%nat = true)
    as ->.
  { apply andb_true_intro. split; apply Nat.leb_le; simpl; lia. }
  f_equal. rewrite <- Hsub. simpl. by rewrite Nat.sub_0_r.
Qed.

(** X5.  What is PUT under a path that does not end in a star can be
    read back by GET: when the store takes the body of an authorised
    PUT and afterwards returns that content for the name, a GET of the
    same path on the store the PUT left is answered 200 with exactly
    that body after what the writer held, and the content type
    [application/octet-stream].  Under a path that ends in a star it
    cannot: the PUT stores the body all the same, but a GET of that
    path never asks the store for the name; it answers 200 with the
    names the store lists for the path without its slash and its star,
    one per line. *)
Theorem ServeHTTP_put_then_get {S : Type} `{HttpStorage.StorageOps S}
    (s : HttpStorage.storageBackend S) (w1 w2 : HttpStorage.ResponseWriter)
    (put get : HttpStorage.Request) (name : string) (st1 : S) :
  HttpStorage.Method put = "PUT" →
  HttpStorage.Method get = "GET" →
  HttpStorage.Path (HttpStorage.Url put) = String "/" name →
  HttpStorage.Path (HttpStorage.Url get) = String "/" name →
  HttpStorage.httpsBaseURL s = "" →
  HttpStorage.authorised s put = true →
  (0 ≤ HttpStorage.ContentLength put)%Z →
  HttpStorage.Put name (HttpStorage.Body put) (HttpStorage.ContentLength put)
    (HttpStorage.backend s) = (None, st1) →
  HttpStorage.status w2 = None →
  HttpStorage.ServeHTTP s w1 put
  = Some (HttpStorage.WriteHeader w1 201, st1) ∧
  (GoStrings.HasSuffix (String "/" name) "*" = false →
   ∀ st2 : S,
     HttpStorage.Get name st1 =
       (inl {| HttpStorage.content := HttpStorage.Body put;
               HttpStorage.readError := None |}, st2) →
     ∃ w' : HttpStorage.ResponseWriter,
       HttpStorage.ServeHTTP (HttpStorage.onStore s st1) w2 get
       = Some (w', st2) ∧
       HttpStorage.status w' = Some 200%Z ∧
       HttpStorage.written w'
       = HttpStorage.written w2 +:+ HttpStorage.Body put ∧
       HttpStorage.header w' !! "Content-Type"
       = Some ["application/octet-stream"]) ∧
  (GoStrings.HasSuffix (String "/" name) "*" = true →
   ∃ prefix : string,
     name = prefix +:+ "*" ∧
     ∀ (names : list string) (st2 : S),
       HttpStorage.List prefix st1 = (inl names, st2) →
       ∃ w' : HttpStorage.ResponseWriter,
         HttpStorage.ServeHTTP (HttpStorage.onStore s st1) w2 get
         = Some (w', st2) ∧
         HttpStorage.status w' = Some 200%Z ∧
         HttpStorage.written w'
         = HttpStorage.written w2
           +:+ GoStrings.Join names (String "010" "") ∧
         HttpStorage.header w' !! "Content-Type"
         = Some ["application/octet-stream"]).
Proof.
  intros Hmp Hmg Hpp Hpg Hb Ha Hlen Hput Hw.
  split_and!.
  - unfold HttpStorage.ServeHTTP, HttpStorage.dispatch,
      HttpStorage.handlePut.
    rewrite Hmp, Hb, Ha. simpl.
    apply Z.ltb_ge in Hlen. rewrite Hlen, Hpp, slice_tail. simpl.
    by rewrite Hput.
  - intros Hstar st2 Hget.
    rewrite ServeHTTP_dispatch by (by rewrite Hmg).
    unfold HttpStorage.dispatch, HttpStorage.handleGet.
    rewrite Hmg, Hpg, Hstar, slice_tail. simpl.
    rewrite Hget. simpl. eexists. split; [reflexivity|]. split_and!.
    + by rewrite status_Write by (by rewrite status_Header_Set).
    + by rewrite written_Write, written_Header_Set.
    + unfold HttpStorage.Write. simpl.
      rewrite header_WriteHeader, header_Header_Set by done.
      by rewrite lookup_insert_eq.
  - intros Hstar.
    destruct (slice_starred name Hstar) as (prefix & Hname & Hslice).
    exists prefix. split; [done|]. intros names st2 Hlist.
    rewrite ServeHTTP_dispatch by (by rewrite Hmg).
    unfold HttpStorage.dispatch, HttpStorage.handleList.
    rewrite Hmg, Hpg, Hstar, Hslice. simpl.
    rewrite Hlist. eexists. split; [reflexivity|]. split_and!.
    + by rewrite status_Write by (by rewrite status_Header_Set).
    + by rewrite written_Write, written_Header_Set.
    + unfold HttpStorage.Write. simpl.
      rewrite header_WriteHeader, header_Header_Set by done.
      by rewrite lookup_insert_eq.
Qed.

Lemma ServeHTTP_put_then_get_witness :
  ∃ w' : HttpStorage.ResponseWriter,
    HttpStorage.ServeHTTP
      (HttpStorage.onStore HttpStorage.guardedBackend
         (HttpStorage.Put "tools/juju.tgz" "juju!" 5
            (HttpStorage.backend HttpStorage.guardedBackend)).2)
      HttpStorage.newResponse HttpStorage.getOfPut
    = Some (w', (HttpStorage.Put "tools/juju.tgz" "juju!" 5
                   (HttpStorage.backend HttpStorage.guardedBackend)).2) ∧
    HttpStorage.status w' = Some 200%Z ∧
    HttpStorage.written w' = "juju!" ∧
    HttpStorage.header w' !! "Content-Type"
    = Some ["application/octet-stream"].
Proof.
  exact (proj1 (proj2 (ServeHTTP_put_then_get HttpStorage.guardedBackend
                  HttpStorage.newResponse HttpStorage.newResponse
                  HttpStorage.putWithKey HttpStorage.getOfPut
                  "tools/juju.tgz" _
                  eq_refl eq_refl eq_refl eq_refl eq_refl eq_refl
                  ltac:(simpl; lia) eq_refl eq_refl)) eq_refl _ eq_refl).
Defined.

(** The body PUT under [/a*] is stored, and the GET of [/a*] answers
    with the listing [a*], not with the body. *)
Example ServeHTTP_put_star :
  let put := {| HttpStorage.Method := "PUT";
                HttpStorage.Url :=
                  {| HttpStorage.Path := "/a*"; HttpStorage.Query := ∅ |};
                HttpStorage.ContentLength := 1;
                HttpStorage.Body := "x" |} in
  let get := {| HttpStorage.Method := "GET";
                HttpStorage.Url :=
                  {| HttpStorage.Path := "/a*"; HttpStorage.Query := ∅ |};
                HttpStorage.ContentLength := 0;
                HttpStorage.Body := "" |} in
  let store := {| HttpStorage.backend := (∅ : HttpStorage.memStore);
                  HttpStorage.httpsBaseURL := "";
                  HttpStorage.authkey := "" |} in
  ∃ st1 : HttpStorage.memStore,
    HttpStorage.ServeHTTP store HttpStorage.newResponse put
    = Some (HttpStorage.WriteHeader HttpStorage.newResponse 201, st1) ∧
    st1 !! "a*" = Some "x" ∧
    HttpStorage.written
      <$> (fst <$> HttpStorage.ServeHTTP (HttpStorage.onStore store st1)
                     HttpStorage.newResponse get)
    = Some "a*".
Proof. eexists. split_and!; [reflexivity | reflexivity | by vm_compute]. Qed.

(** ** The HTTP storage backend: the servers *)

Section Servers.
Import GoStrings HttpStorage.
Context {S : Type} `{StorageOps S}.

Lemma Sprintf_https (addr : string) :
  Sprintf "https://%s" addr = "https://" +:+ addr.
Proof. simpl. by rewrite append_empty_r. Qed.

Lemma ServeHTTP_head_location (s : storageBackend S) (w : ResponseWriter)
    (req : Request) :
  Method req = "HEAD" → httpsBaseURL s ≠ "" → status w = None →
  ∃ w', ServeHTTP s w req = Some (w', backend s) ∧
        status w' = Some 200%Z ∧
        header w' !! "Location" = Some [httpsBaseURL s +:+ Path (Url req)].
Proof.
  intros Hm Hb Hw. rewrite ServeHTTP_dispatch by (by rewrite Hm).
  unfold dispatch, handleHead. rewrite Hm. simpl.
  apply String.eqb_neq in Hb. rewrite Hb. simpl.
  eexists. split; [reflexivity|]. split.
  - by rewrite status_WriteHeader by (by rewrite status_Header_Set).
  - rewrite header_WriteHeader, header_Header_Set by done.
    by rewrite lookup_insert_eq.
Qed.

Lemma ServeHTTP_head_refused (s : storageBackend S) (w : ResponseWriter)
    (req : Request) :
  Method req = "HEAD" → httpsBaseURL s = "" → status w = None →
  ∃ w', ServeHTTP s w req = Some (w', backend s) ∧
        status w' = Some 405%Z.
Proof.
  intros Hm Hb Hw. rewrite ServeHTTP_dispatch by (by rewrite Hm).
  unfold dispatch, handleHead. rewrite Hm, Hb. simpl.
  eexists. split; [reflexivity|]. by rewrite Error_status.
Qed.

(** With neither base URL nor auth key, nothing is refused at the
    door. *)
Lemma ServeHTTP_open (s : storageBackend S) (w : ResponseWriter)
    (req : Request) :
  httpsBaseURL s = "" → authkey s = "" →
  ServeHTTP s w req = dispatch s w req ∧ authorised s req = true.
Proof.
  intros Hb Hk. unfold ServeHTTP, authorised. rewrite Hb, Hk. simpl.
  by destruct (_ || _).
Qed.

Lemma ServeHTTP_with_key (s : storageBackend S) (w : ResponseWriter)
    (req : Request) :
  Method req = "PUT" ∨ Method req = "DELETE" → httpsBaseURL s = "" →
  ServeHTTP s w req =
  if authorised s req then dispatch s w req
  else Some (Error w "unauthorised access" StatusUnauthorized, backend s).
Proof.
  intros Hm Hb. unfold ServeHTTP. rewrite Hb.
  assert (String.eqb (Method req) "PUT" || String.eqb (Method req) "DELETE"
          = true) as -> by (by destruct Hm as [-> | ->]).
  simpl. by destruct (authorised s req).
Qed.

Variable netListen : string → string + Listener.
Variable tlsListen : string → string + Listener.

Lemma serve_inv {cert : Type} (addr : string) (stor : S)
    (tlsConfig : option (TLSConfig cert)) (key : string) (srv : Server S) :
  serve netListen tlsListen addr stor tlsConfig key = inr srv →
  ∃ listener, netListen addr = inr listener ∧ returned srv = listener ∧
    match tlsConfig with
    | None =>
        serving srv =
        [(listener,
          {| backend := stor; httpsBaseURL := ""; authkey := "" |})]
    | Some _ =>
        ∃ tlsListener,
          tlsListen (Sprintf "[%s]:0" (IP listener)) = inr tlsListener ∧
          serving srv =
          [(tlsListener,
            {| backend := stor; httpsBaseURL := ""; authkey := key |});
           (listener,
            {| backend := stor;
               httpsBaseURL := "https://" +:+ Addr tlsListener;
               authkey := "" |})]
    end.
Proof.
  unfold serve. destruct (netListen addr) as [err|listener]; [done|].
  destruct tlsConfig as [cfg|].
  - destruct (tlsListen _) as [err|tlsListener] eqn:Htls; [done|].
    intros [= <-]. exists listener. split_and!; [done..|].
    exists tlsListener. split; [exact Htls|].
    cbn [serving goServe]. by rewrite append_empty_r.
  - intros [= <-]. by exists listener.
Qed.

End Servers.

(** X6.  After [ServeTLS] the store cannot be written over plain HTTP.
    A successful [ServeTLS] means that the certificate was made and
    parsed, that the CA certificate went into the pool and that both
    listeners came up; it serves two backends on the one store.  The
    backend of the returned, plain listener answers every PUT and DELETE
    with 401 and leaves the store alone, and answers a HEAD with 200 and
    the address of the TLS listener, as an [https] URL followed by the
    path, in [Location].  The backend of the TLS listener lets a PUT or
    DELETE through exactly when the auth key is empty or the request's
    [authkey] parameter equals it. *)
Theorem ServeTLS_writes_only_over_tls {S : Type} `{HttpStorage.StorageOps S}
    {cert : Type}
    (netListen tlsListen : string → string + HttpStorage.Listener)
    (NewServer : string → string → list string → string + string * string)
    (X509KeyPair : string → string → string + cert)
    (AppendCertsFromPEM : string → bool)
    (addr : string) (stor : S) (caCertPEM caKeyPEM : string)
    (hostnames : list string) (authkey : string)
    (srv : HttpStorage.Server S) :
  HttpStorage.ServeTLS netListen tlsListen NewServer X509KeyPair
    AppendCertsFromPEM addr stor caCertPEM caKeyPEM hostnames authkey
  = inr srv →
  ∃ (listener tlsListener : HttpStorage.Listener)
    (plain secure : HttpStorage.storageBackend S),
    netListen addr = inr listener ∧
    HttpStorage.returned srv = listener ∧
    HttpStorage.serving srv = [(tlsListener, secure); (listener, plain)] ∧
    HttpStorage.backend plain = stor ∧ HttpStorage.backend secure = stor ∧
    (∃ certPEM keyPEM serverCert,
        NewServer caCertPEM caKeyPEM hostnames = inr (certPEM, keyPEM) ∧
        X509KeyPair certPEM keyPEM = inr serverCert) ∧
    AppendCertsFromPEM caCertPEM = true ∧
    (∀ (st : S) (w : HttpStorage.ResponseWriter) (req : HttpStorage.Request),
        HttpStorage.Method req = "PUT" ∨ HttpStorage.Method req = "DELETE" →
        HttpStorage.ServeHTTP (HttpStorage.onStore plain st) w req =
        Some (HttpStorage.Error w "unauthorised access" 401, st)) ∧
    (∀ (st : S) (w : HttpStorage.ResponseWriter) (req : HttpStorage.Request),
        HttpStorage.Method req = "HEAD" → HttpStorage.status w = None →
        ∃ w', HttpStorage.ServeHTTP (HttpStorage.onStore plain st) w req
              = Some (w', st) ∧
              HttpStorage.status w' = Some 200%Z ∧
              HttpStorage.header w' !! "Location" =
              Some [("https://" +:+ HttpStorage.Addr tlsListener)
                    +:+ HttpStorage.Path (HttpStorage.Url req)]) ∧
    (∀ (st : S) (w : HttpStorage.ResponseWriter) (req : HttpStorage.Request),
        HttpStorage.Method req = "PUT" ∨ HttpStorage.Method req = "DELETE" →
        HttpStorage.ServeHTTP (HttpStorage.onStore secure st) w req =
        if decide (authkey = "" ∨
                   HttpStorage.Values_Get
                     (HttpStorage.Query (HttpStorage.Url req)) "authkey"
                   = authkey)
        then HttpStorage.dispatch (HttpStorage.onStore secure st) w req
        else Some (HttpStorage.Error w "unauthorised access" 401, st)).
Proof.
  unfold HttpStorage.ServeTLS.
  destruct (NewServer _ _ _) as [err|[certPEM keyPEM]] eqn:Hnew; [done|].
  destruct (X509KeyPair _ _) as [err|serverCert] eqn:Hpair; [done|].
  destruct (AppendCertsFromPEM caCertPEM) eqn:Happend; [|done]. simpl.
  intros (listener & Hlisten & Hret & tlsListener & Htls & Hserving)%serve_inv.
  set (secure := {| HttpStorage.backend := stor;
                    HttpStorage.httpsBaseURL := "";
                    HttpStorage.authkey := authkey |}) in *.
  set (plain := {| HttpStorage.backend := stor;
                   HttpStorage.httpsBaseURL :=
                     "https://" +:+ HttpStorage.Addr tlsListener;
                   HttpStorage.authkey := "" |}) in *.
  assert (∀ st, HttpStorage.httpsBaseURL (HttpStorage.onStore plain st) ≠ "")
    as Hbase by (intros st; simpl; by rewrite append_cons).
  exists listener, tlsListener, plain, secure. split_and!; try done.
  - eauto.
  - intros st w req Hm.
    apply (ServeHTTP_refuses (HttpStorage.onStore plain st) w req Hm).
    left. apply Hbase.
  - intros st w req Hm Hw.
    destruct (ServeHTTP_head_location (HttpStorage.onStore plain st) w req
                Hm (Hbase st) Hw) as (w' & Hserve & Hstatus & Hloc).
    exists w'. by split_and!.
  - intros st w req Hm.
    rewrite (ServeHTTP_with_key (HttpStorage.onStore secure st)) by done.
    destruct (HttpStorage.authorised _ req) eqn:Ha.
    + apply authorised_iff in Ha. by rewrite decide_True.
    + rewrite decide_False; [done|]. intros Hk.
      apply (authorised_iff (HttpStorage.onStore secure st) req) in Hk.
      congruence.
Qed.

(** X7.  After [Serve] the store is open: [Serve] fails only when the
    address cannot be listened on, with that error after
    [cannot start listener: ]; otherwise it serves one backend, on the
    returned listener, that refuses no request as unauthorised (every
    request goes to its handler, and [handleDelete]'s own check passes)
    and answers every HEAD with 405. *)
Theorem Serve_is_open {S : Type} `{HttpStorage.StorageOps S}
    (netListen tlsListen : string → string + HttpStorage.Listener)
    (addr : string) (stor : S) :
  match netListen addr with
  | inl err =>
      HttpStorage.Serve netListen tlsListen addr stor
      = inl ("cannot start listener: " +:+ err)
  | inr listener =>
      ∃ b : HttpStorage.storageBackend S,
        HttpStorage.Serve netListen tlsListen addr stor
        = inr {| HttpStorage.returned := listener;
                 HttpStorage.serving := [(listener, b)] |} ∧
        HttpStorage.backend b = stor ∧
        (∀ (st : S) (w : HttpStorage.ResponseWriter)
           (req : HttpStorage.Request),
            HttpStorage.ServeHTTP (HttpStorage.onStore b st) w req
            = HttpStorage.dispatch (HttpStorage.onStore b st) w req ∧
            HttpStorage.authorised (HttpStorage.onStore b st) req = true) ∧
        (∀ (st : S) (w : HttpStorage.ResponseWriter)
           (req : HttpStorage.Request),
            HttpStorage.Method req = "HEAD" → HttpStorage.status w = None →
            ∃ w', HttpStorage.ServeHTTP (HttpStorage.onStore b st) w req
                  = Some (w', st) ∧
                  HttpStorage.status w' = Some 405%Z)
  end.
Proof.
  unfold HttpStorage.Serve, HttpStorage.serve.
  destruct (netListen addr) as [err|listener]; [done|].
  eexists. split; [reflexivity|]. split_and!; [done| |].
  - intros st w req. by apply ServeHTTP_open.
  - intros st w req Hm Hw.
    destruct (ServeHTTP_head_refused
                (HttpStorage.onStore
                   {| HttpStorage.backend := stor;
                      HttpStorage.httpsBaseURL := "";
                      HttpStorage.authkey := "" |} st) w req Hm eq_refl Hw)
      as (w' & Hserve & Hstatus).
    exists w'. by split.
Qed.

Lemma ServeTLS_writes_only_over_tls_witness :
  ∃ plain : HttpStorage.storageBackend HttpStorage.memStore,
    HttpStorage.backend plain = {[ "tools" := "data" ]} ∧
    ∀ (st : HttpStorage.memStore) (w : HttpStorage.ResponseWriter)
      (req : HttpStorage.Request),
      HttpStorage.Method req = "PUT" ∨ HttpStorage.Method req = "DELETE" →
      HttpStorage.ServeHTTP (HttpStorage.onStore plain st) w req =
      Some (HttpStorage.Error w "unauthorised access" 401, st).
Proof.
  destruct (ServeTLS_writes_only_over_tls
              HttpStorage.openNetwork HttpStorage.openNetwork
              HttpStorage.madeCertificate HttpStorage.parsedCertificate
              (λ _, true) "127.0.0.1:8040" {[ "tools" := "data" ]}
              "ca certificate" "ca key" ["localhost"] "secret"
              HttpStorage.tlsServer eq_refl)
    as (listener & tlsListener & plain & secure & _ & _ & _ & Hstore & _ & _
        & _ & Hrefuse & _).
  exists plain. split; [exact Hstore | exact Hrefuse].
Defined.

(** ** Entity names as file names *)

Section FileNames.
Import GoStrings Api.

Lemma noByte_append (b : ascii) (s t : string) :
  noByte b (s +:+ t) = noByte b s && noByte b t.
Proof.
  induction s as [|c s IH]; [done|].
  rewrite append_cons. simpl. rewrite IH. by rewrite andb_assoc.
Qed.

Lemma noByte_slashToDash (s : string) :
  noByte "/" (mapBytes slashToDash s) = true.
Proof.
  induction s as [|c s IH]; simpl; [done|]. rewrite IH.
  unfold slashToDash. by destruct (Ascii.eqb_spec c "/") as [->|Hc];
    [|apply Ascii.eqb_neq in Hc; rewrite Hc].
Qed.

End FileNames.

(** X8.  The entity name of a unit is safe to use as a file name: it
    has no slash, whatever the unit name.  The entity name of a machine
    has a slash exactly when the machine id has one. *)
Theorem entity_names_as_file_names :
  (∀ unitName : string,
      Api.noByte "/" (Api.UnitEntityName unitName) = true) ∧
  (∀ id : string,
      Api.noByte "/" (Api.MachineEntityName id) = Api.noByte "/" id).
Proof.
  split.
  - intros unitName. rewrite UnitEntityName_eq, noByte_append.
    by rewrite noByte_slashToDash.
  - intros id. by rewrite MachineEntityName_eq, noByte_append.
Qed.

(** ** Block-device paths: where they lie *)

Section PathsUnderDev.
Import GoStrings Filepath Storage.

(** Without [..] among the components, [Clean] keeps the components
    that are neither empty nor [.], in order, on top of what it had. *)
Lemma fold_cleanStep_no_dotdot (rooted : bool) (comps stack : list string) :
  ".." ∉ comps →
  fold_left (cleanStep rooted) comps stack =
  (rev (filter (λ c, c ≠ "" ∧ c ≠ ".") comps) ++ stack)%list.
Proof.
  revert stack. induction comps as [|c comps IH]; intros stack Hno; [done|].
  apply not_elem_of_cons in Hno as [Hc Hno]. simpl.
  rewrite IH by done. unfold cleanStep at 1.
  destruct (String.eqb_spec c "") as [->|H1]; simpl.
  { by rewrite filter_cons_False by (by intros [? _]). }
  destruct (String.eqb_spec c ".") as [->|H2]; simpl.
  { by rewrite filter_cons_False by (by intros [_ ?]). }
  apply not_eq_sym, String.eqb_neq in Hc. rewrite Hc.
  rewrite filter_cons_True by done. simpl. by rewrite <- app_assoc.
Qed.

Lemma HasPrefix_append (p rest : string) : HasPrefix (p +:+ rest) p = true.
Proof.
  induction p as [|c p IH]; [by destruct rest|].
  rewrite append_cons. simpl. by rewrite Ascii.eqb_refl.
Qed.

Lemma Join_under (dir : string) (ks : list string) :
  GoStrings.Join (dir :: ks) "/" = dir ∨
  ∃ rest, GoStrings.Join (dir :: ks) "/" = dir +:+ "/" +:+ rest.
Proof. destruct ks as [|k ks]; [by left | right; eauto]. Qed.

Lemma Join_dirs (d1 d2 d3 : string) (ks : list string) :
  GoStrings.Join (d1 :: d2 :: d3 :: ks) "/" =
  d1 +:+ "/" +:+ d2 +:+ "/" +:+ GoStrings.Join (d3 :: ks) "/".
Proof. reflexivity. Qed.

Lemma Join_inside_diskByID (s : string) :
  ".." ∉ splitSlash s →
  Filepath.Join [diskByID; s] = "/dev/disk/by-id" ∨
  HasPrefix (Filepath.Join [diskByID; s]) "/dev/disk/by-id/" = true.
Proof.
  intros Hno.
  change (Filepath.Join [diskByID; s]) with
    ("/" +:+ GoStrings.Join
       (rev (fold_left (cleanStep true) (splitSlash s)
               ["by-id"; "disk"; "dev"])) "/").
  rewrite fold_cleanStep_no_dotdot by done.
  rewrite rev_app_distr, rev_involutive.
  change (rev ["by-id"; "disk"; "dev"] ++ ?ks)%list
    with ("dev" :: "disk" :: "by-id" :: ks).
  rewrite Join_dirs.
  destruct (Join_under "by-id" (filter (λ c, c ≠ "" ∧ c ≠ ".") (splitSlash s)))
    as [-> | [rest ->]]; [by left | right].
  apply (HasPrefix_append "/dev/disk/by-id/" rest).
Qed.

Lemma Join_inside_diskByDeviceName (s : string) :
  ".." ∉ splitSlash s →
  Filepath.Join [diskByDeviceName; s] = "/dev" ∨
  HasPrefix (Filepath.Join [diskByDeviceName; s]) "/dev/" = true.
Proof.
  intros Hno.
  change (Filepath.Join [diskByDeviceName; s]) with
    ("/" +:+ GoStrings.Join
       (rev (fold_left (cleanStep true) (splitSlash s) ["dev"])) "/").
  rewrite fold_cleanStep_no_dotdot by done.
  rewrite rev_app_distr, rev_involutive.
  change (rev ["dev"] ++ ?ks)%list with ("dev" :: ks).
  destruct (Join_under "dev" (filter (λ c, c ≠ "" ∧ c ≠ ".") (splitSlash s)))
    as [-> | [rest ->]]; [by left | right].
  apply (HasPrefix_append "/dev/disk/by-id/" rest).
Qed.

Lemma Join_rooted (dir s : string) :
  HasPrefix dir "/" = true → 
  HasPrefix (Filepath.Join [dir; s]) "/" = true.
Proof.
  destruct dir as [|c dir]; [done|]. simpl.
  destruct (Ascii.eqb_spec c "/") as [->|]; [|done]. intros _.
  apply (HasPrefix_append "/").
Qed.

End PathsUnderDev.

Section PlainDevices.
Import GoStrings Filepath Storage.

Lemma plainName_inv (s : string) :
  plainName s = true → s ≠ "" ∧ Api.noByte "/" s = true.
Proof.
  unfold plainName. intros [[[H1 _]%andb_prop _]%andb_prop H4]%andb_prop.
  split; [|done]. apply negb_true_iff in H1. by apply String.eqb_neq.
Qed.

Lemma BlockDevicePath_by_serial (device : BlockDevice) :
  plainName (Serial device) = true →
  BlockDevicePath device = ("/dev/disk/by-id/" +:+ Serial device, None).
Proof.
  intros Hp. destruct (plainName_inv _ Hp) as [Hne _].
  unfold BlockDevicePath. apply String.eqb_neq in Hne. rewrite Hne.
  cbn [negb]. by rewrite Join_plain_diskByID.
Qed.

Lemma BlockDevicePath_by_name (device : BlockDevice) :
  Serial device = "" → plainName (DeviceName device) = true →
  BlockDevicePath device = ("/dev/" +:+ DeviceName device, None).
Proof.
  intros Hs Hp. destruct (plainName_inv _ Hp) as [Hne _].
  unfold BlockDevicePath. apply String.eqb_neq in Hne. rewrite Hs, Hne.
  cbn [negb String.eqb]. by rewrite Join_plain_diskByDeviceName.
Qed.

End PlainDevices.

(** X9.  Where the paths of [BlockDevicePath] lie.  A path returned
    without error is absolute, and with an error the path is empty.  As
    long as no component of the serial (of the device name, when there
    is no serial) is [..], the path is the directory [/dev/disk/by-id]
    ([/dev]) itself or lies under it. *)
Theorem BlockDevicePath_under_dev (device : Storage.BlockDevice) :
  match (Storage.BlockDevicePath device).2 with
  | None =>
      GoStrings.HasPrefix (Storage.BlockDevicePath device).1 "/" = true
  | Some _ => (Storage.BlockDevicePath device).1 = ""
  end ∧
  (Storage.Serial device ≠ "" →
   ".." ∉ GoStrings.splitSlash (Storage.Serial device) →
   (Storage.BlockDevicePath device).1 = "/dev/disk/by-id" ∨
   GoStrings.HasPrefix (Storage.BlockDevicePath device).1 "/dev/disk/by-id/"
   = true) ∧
  (Storage.Serial device = "" → Storage.DeviceName device ≠ "" →
   ".." ∉ GoStrings.splitSlash (Storage.DeviceName device) →
   (Storage.BlockDevicePath device).1 = "/dev" ∨
   GoStrings.HasPrefix (Storage.BlockDevicePath device).1 "/dev/" = true).
Proof.
  destruct device as [dn sn]. unfold Storage.BlockDevicePath.
  cbn [Storage.Serial Storage.DeviceName].
  destruct (String.eqb_spec sn "") as [->|Hsn]; cbn [negb].
  - destruct (String.eqb_spec dn "") as [->|Hdn]; cbn [negb fst snd].
    + by split_and!.
    + split_and!; [by apply Join_rooted | done |].
      intros _ _. apply Join_inside_diskByDeviceName.
  - cbn [fst snd]. split_and!; [by apply Join_rooted | | done].
    intros _. apply Join_inside_diskByID.
Qed.

Lemma BlockDevicePath_under_dev_witness :
  (Storage.BlockDevicePath
     {| Storage.DeviceName := "sda"; Storage.Serial := "scsi/0/./lun1/" |}).1
  = "/dev/disk/by-id" ∨
  GoStrings.HasPrefix
    (Storage.BlockDevicePath
       {| Storage.DeviceName := "sda"; Storage.Serial := "scsi/0/./lun1/" |}).1
    "/dev/disk/by-id/" = true.
Proof.
  apply (proj1 (proj2 (BlockDevicePath_under_dev
           {| Storage.DeviceName := "sda";
              Storage.Serial := "scsi/0/./lun1/" |}))).
  - discriminate.
  - apply (bool_decide_unpack _). vm_compute. exact I.
Defined.

(** A serial with [..] components leads out of the directory. *)
Example BlockDevicePath_leaves_by_id :
  Storage.BlockDevicePath
    {| Storage.DeviceName := ""; Storage.Serial := "../../sda" |}
  = ("/dev/sda", None).
Proof. reflexivity. Qed.

(** X10.  Devices with plain names do not share a path.  When each of
    two devices has a plain serial, or no serial and a plain device
    name (plain: not empty, not [.] or [..], without a slash), and
    [BlockDevicePath] returns the same for both, they have the same
    serial and, when that is empty, the same device name. *)
Theorem BlockDevicePath_tells_devices_apart (d1 d2 : Storage.BlockDevice) :
  (Storage.plainName (Storage.Serial d1) = true ∨
   Storage.Serial d1 = "" ∧
   Storage.plainName (Storage.DeviceName d1) = true) →
  (Storage.plainName (Storage.Serial d2) = true ∨
   Storage.Serial d2 = "" ∧
   Storage.plainName (Storage.DeviceName d2) = true) →
  Storage.BlockDevicePath d1 = Storage.BlockDevicePath d2 →
  Storage.Serial d1 = Storage.Serial d2 ∧
  (Storage.Serial d1 = "" → Storage.DeviceName d1 = Storage.DeviceName d2).
Proof.
  intros [Hs1 | [He1 Hn1]] [Hs2 | [He2 Hn2]].
  - rewrite !BlockDevicePath_by_serial by done.
    intros Heq%(f_equal fst). cbn [fst] in Heq.
    apply (inj (String.app "/dev/disk/by-id/")) in Heq. split; [done|].
    intros He. apply plainName_inv in Hs1 as [? _]. done.
  - rewrite (BlockDevicePath_by_serial d1), (BlockDevicePath_by_name d2)
      by done.
    intros Heq%(f_equal fst). cbn [fst] in Heq.
    change ("/dev/" +:+ ("disk/by-id/" +:+ Storage.Serial d1)
            = "/dev/" +:+ Storage.DeviceName d2) in Heq.
    apply (inj (String.app "/dev/")) in Heq.
    apply plainName_inv in Hn2 as [_ Hslash]. rewrite <- Heq in Hslash.
    rewrite noByte_append in Hslash.
    apply andb_prop in Hslash as [Hslash _]. by vm_compute in Hslash.
  - rewrite (BlockDevicePath_by_name d1), (BlockDevicePath_by_serial d2)
      by done.
    intros Heq%(f_equal fst). cbn [fst] in Heq.
    change ("/dev/" +:+ Storage.DeviceName d1
            = "/dev/" +:+ ("disk/by-id/" +:+ Storage.Serial d2)) in Heq.
    apply (inj (String.app "/dev/")) in Heq.
    apply plainName_inv in Hn1 as [_ Hslash]. rewrite Heq in Hslash.
    rewrite noByte_append in Hslash.
    apply andb_prop in Hslash as [Hslash _]. by vm_compute in Hslash.
  - rewrite !BlockDevicePath_by_name by done.
    intros Heq%(f_equal fst). cbn [fst] in Heq.
    apply (inj (String.app "/dev/")) in Heq. by rewrite He1, He2.
Qed.

Lemma BlockDevicePath_tells_devices_apart_witness :
  Storage.Serial
    {| Storage.DeviceName := "sda"; Storage.Serial := "ata-QEMU_0001" |}
  = Storage.Serial
      {| Storage.DeviceName := "sdb"; Storage.Serial := "ata-QEMU_0001" |} ∧
  (Storage.Serial
     {| Storage.DeviceName := "sda"; Storage.Serial := "ata-QEMU_0001" |} = "" →
   Storage.DeviceName
     {| Storage.DeviceName := "sda"; Storage.Serial := "ata-QEMU_0001" |}
   = Storage.DeviceName
       {| Storage.DeviceName := "sdb"; Storage.Serial := "ata-QEMU_0001" |}).
Proof.
  apply (BlockDevicePath_tells_devices_apart
           {| Storage.DeviceName := "sda"; Storage.Serial := "ata-QEMU_0001" |}
           {| Storage.DeviceName := "sdb"; Storage.Serial := "ata-QEMU_0001" |}).
  - left. reflexivity.
  - left. reflexivity.
  - reflexivity.
Defined.

(** ** The test suite and the process environment *)

Section Environment.
Import Os.

Lemma Setenv_lookup (key value : string) (env : Environ) (n : string) :
  (Setenv key value env).2 !! n =
  if decide (key = n ∧ validKey key = true ∧ Api.noByte "000" value = true)
  then Some value else env !! n.
Proof.
  unfold Setenv.
  destruct (validKey key) eqn:Hk, (Api.noByte "000" value) eqn:Hv; simpl;
    try (rewrite decide_False by (by intros (_ & ? & ?)); done).
  rewrite lookup_insert. destruct (decide (key = n)) as [->|Hne].
  - by rewrite decide_True.
  - by rewrite decide_False by (by intros [? _]).
Qed.

Lemma validKey_not_empty (key : string) : validKey key = true → key ≠ "".
Proof. unfold validKey. by intros [[? _]%andb_prop _]%andb_prop ->. Qed.

Lemma Getenv_lookup (key : string) (env : Environ) :
  key ≠ "" → Getenv key env = default "" (env !! key).
Proof. intros Hk%String.eqb_neq. unfold Getenv. by rewrite Hk. Qed.

(** What [os.Getenv] returns has no NUL byte in an environment without
    such values. *)
Lemma Getenv_clean (key : string) (env : Environ) :
  Testing.cleanValues env → Api.noByte "000" (Getenv key env) = true.
Proof.
  intros Hclean. unfold Getenv. destruct (String.eqb key ""); [done|].
  destruct (env !! key) as [v|] eqn:Hv; simpl; [by eapply Hclean | done].
Qed.

End Environment.

Section SuiteProperties.
Import Os Testing.
Variables JujuHomeEnvKey JujuEnvEnvKey JujuLoggingConfigEnvKey
  JujuFeatureFlagEnvKey : string.
Variable J : Type.
Variable SetJujuHome : string → J → string * J.
Variable F : Type.
Variable parseFlags : string → F.

Local Abbreviation names :=
  (isolated JujuHomeEnvKey JujuEnvEnvKey JujuLoggingConfigEnvKey
     JujuFeatureFlagEnvKey).
Local Abbreviation SetUp :=
  (SetUpTest JujuHomeEnvKey JujuEnvEnvKey JujuLoggingConfigEnvKey
     JujuFeatureFlagEnvKey J SetJujuHome F parseFlags).
Local Abbreviation TearDown := (TearDownTest J SetJujuHome F).

(** The loop of [SetUpTest] over distinct names: every name is saved
    with the value it had before the loop, and the names [os.Setenv]
    accepts are blank afterwards. *)
Lemma saveAndBlank_loop (l : list string) :
  ∀ (old : gmap string string) (env : Environ),
    NoDup l →
    let r := fold_left saveAndBlank l (old, env) in
    (∀ n, r.1 !! n =
          if decide (n ∈ l) then Some (Getenv n env) else old !! n) ∧
    (∀ n, r.2 !! n =
          if decide (n ∈ l ∧ validKey n = true) then Some "" else env !! n).
Proof.
  induction l as [|name l IH]; intros old env Hnd; cbv zeta.
  { split; intros n.
    - by rewrite decide_False by set_solver.
    - by rewrite decide_False by set_solver. }
  apply NoDup_cons in Hnd as [Hname Hnd]. simpl.
  destruct (IH (<[name := Getenv name env]> old) (Setenv name "" env).2 Hnd)
    as [Hold Henv].
  unfold saveAndBlank at 2 4. cbn [fst snd]. split; intros n.
  - rewrite Hold. destruct (decide (n ∈ l)) as [Hin|Hin].
    + rewrite decide_True by set_solver. f_equal.
      assert (name ≠ n) as Hne by (intros ->; done).
      unfold Getenv. destruct (String.eqb n ""); [done|].
      rewrite Setenv_lookup. by rewrite decide_False by (by intros [? _]).
    + rewrite lookup_insert. destruct (decide (name = n)) as [->|Hne].
      * by rewrite decide_True by set_solver.
      * by rewrite decide_False by set_solver.
  - rewrite Henv. destruct (decide (n ∈ l ∧ validKey n = true)) as [[Hin Hv]|Hn].
    + by rewrite decide_True by set_solver.
    + rewrite Setenv_lookup. destruct (decide (name = n)) as [->|Hne].
      * destruct (validKey n) eqn:Hv.
        -- rewrite decide_True by done. by rewrite decide_True by set_solver.
        -- rewrite decide_False by (by intros (_ & ? & _)).
           by rewrite decide_False by (by intros [_ ?]).
      * rewrite decide_False by (by intros [? _]).
        rewrite decide_False; [done|]. intros [Hin Hv]. apply Hn.
        split; [|done]. set_solver.
Qed.

(** The loop of [TearDownTest]: every saved name that [os.Setenv]
    accepts gets its saved value, when that has no NUL byte. *)
Lemma restore_loop (old : gmap string string) (env : Environ) (n : string) :
  map_fold restore env old !! n =
  match old !! n with
  | Some v =>
      if validKey n && Api.noByte "000" v then Some v else env !! n
  | None => env !! n
  end.
Proof.
  revert n.
  apply (map_fold_weak_ind
    (λ (r : Environ) (m : gmap string string), ∀ n,
       r !! n = match m !! n with
                | Some v => if validKey n && Api.noByte "000" v
                            then Some v else env !! n
                | None => env !! n
                end)).
  - intros n. by rewrite lookup_empty.
  - intros name value m r Hfresh IH n. unfold restore.
    rewrite Setenv_lookup, lookup_insert.
    destruct (decide (name = n)) as [->|Hne].
    + destruct (validKey n) eqn:Hk, (Api.noByte "000" value) eqn:Hv; simpl;
        try (rewrite decide_False by (by intros (_ & ? & ?));
             by rewrite IH, Hfresh).
      by rewrite decide_True.
    + rewrite decide_False by (by intros [? _]). apply IH.
Qed.

(** The suite after [SetUpTest], and the environment it leaves. *)
Lemma SetUp_saved (s : JujuOSEnvSuite) (p : Process J F) :
  NoDup names → "HOME" ∉ names →
  (∀ n, oldEnvironment (SetUp s p).1 !! n =
        if decide (n ∈ names) then Some (Getenv n (environ p)) else None) ∧
  oldHomeEnv (SetUp s p).1 = Getenv "HOME" (environ p) ∧
  (∀ n, environ (SetUp s p).2 !! n =
        if decide (n = "HOME" ∨ n ∈ names ∧ validKey n = true)
        then Some "" else environ p !! n) ∧
  flags (SetUp s p).2 =
  parseFlags (Getenv JujuFeatureFlagEnvKey (environ (SetUp s p).2)).
Proof.
  intros Hnd Hhome.
  destruct (saveAndBlank_loop names ∅ (environ p) Hnd) as [Hold Henv].
  cbv zeta in Hold, Henv. unfold SetUpTest. cbn [fst snd oldEnvironment
    oldHomeEnv environ flags SetFlagsFromEnvironment]. split_and!.
  - intros n. rewrite Hold. by destruct (decide (n ∈ names)).
  - unfold Home. rewrite !Getenv_lookup by done. rewrite Henv.
    by rewrite decide_False by (by intros [? _]).
  - intros n. unfold SetHome. rewrite Setenv_lookup, Henv.
    destruct (decide (n = "HOME")) as [->|Hne].
    + rewrite decide_True by done. by rewrite decide_True by (by left).
    + rewrite decide_False by (by intros [? _]).
      destruct (decide (n ∈ names ∧ validKey n = true)) as [Hin|Hin].
      * by rewrite decide_True by (by right).
      * by rewrite decide_False by (by intros [?|?]).
  - done.
Qed.

End SuiteProperties.

(** X11.  [SetUpTest] isolates a test from the environment: the four
    juju variables and [HOME] read as empty afterwards, the feature
    flags in force are those of the empty text, and no other variable
    is touched.  (The names of the juju variables are distinct, none of
    them is [HOME], and [os.Setenv] accepts them.) *)
Theorem SetUpTest_isolates
    (JujuHomeEnvKey JujuEnvEnvKey JujuLoggingConfigEnvKey
       JujuFeatureFlagEnvKey : string)
    (J : Type) (SetJujuHome : string → J → string * J)
    (F : Type) (parseFlags : string → F)
    (s : Testing.JujuOSEnvSuite) (p : Testing.Process J F) :
  let names := Testing.isolated JujuHomeEnvKey JujuEnvEnvKey
                 JujuLoggingConfigEnvKey JujuFeatureFlagEnvKey in
  let p1 := (Testing.SetUpTest JujuHomeEnvKey JujuEnvEnvKey
               JujuLoggingConfigEnvKey JujuFeatureFlagEnvKey
               J SetJujuHome F parseFlags s p).2 in
  NoDup names → "HOME" ∉ names → Forall (λ n, Os.validKey n = true) names →
  (∀ n, n = "HOME" ∨ n ∈ names → Os.Getenv n (Testing.environ p1) = "") ∧
  (∀ n, n ≠ "HOME" → n ∉ names →
        Testing.environ p1 !! n = Testing.environ p !! n) ∧
  Testing.flags p1 = parseFlags "".
Proof.
  intros names p1 Hnd Hhome Hvalid.
  destruct (SetUp_saved JujuHomeEnvKey JujuEnvEnvKey JujuLoggingConfigEnvKey
              JujuFeatureFlagEnvKey J SetJujuHome F parseFlags s p Hnd Hhome)
    as (_ & _ & Henv & Hflags).
  rewrite Forall_forall in Hvalid.
  assert (∀ n, n = "HOME" ∨ n ∈ names →
               Os.Getenv n (Testing.environ p1) = "") as Hblank.
  { intros n Hn. unfold Os.Getenv. destruct (String.eqb n ""); [done|].
    subst p1. rewrite Henv. rewrite decide_True; [done|].
    destruct Hn as [-> | Hin]; [by left | right]. split; [done|].
    by apply Hvalid. }
  split_and!; [done| |].
  - intros n Hne Hin. subst p1. rewrite Henv.
    by rewrite decide_False by (by intros [?|[? _]]).
  - subst p1. rewrite Hflags. f_equal. apply Hblank. right.
    unfold names, Testing.isolated. set_solver.
Qed.

(** X12.  [TearDownTest] gives back what [SetUpTest] took, whatever the
    test did to the environment in between: each of the four juju
    variables and [HOME] reads as it did before [SetUpTest].  It touches
    no other variable and not the feature flags.  The restoration is up
    to [os.Getenv]: a variable that was not set before [SetUpTest] is
    set afterwards, to the empty string.  (The names of the juju
    variables are distinct, none of them is [HOME], [os.Setenv] accepts
    them, and no value of the environment has a NUL byte.) *)
Theorem TearDownTest_restores
    (JujuHomeEnvKey JujuEnvEnvKey JujuLoggingConfigEnvKey
       JujuFeatureFlagEnvKey : string)
    (J : Type) (SetJujuHome : string → J → string * J)
    (F : Type) (parseFlags : string → F)
    (s : Testing.JujuOSEnvSuite) (p p' : Testing.Process J F) :
  let names := Testing.isolated JujuHomeEnvKey JujuEnvEnvKey
                 JujuLoggingConfigEnvKey JujuFeatureFlagEnvKey in
  let s1 := (Testing.SetUpTest JujuHomeEnvKey JujuEnvEnvKey
               JujuLoggingConfigEnvKey JujuFeatureFlagEnvKey
               J SetJujuHome F parseFlags s p).1 in
  let after := Testing.TearDownTest J SetJujuHome F s1 p' in
  NoDup names → "HOME" ∉ names → Forall (λ n, Os.validKey n = true) names →
  Testing.cleanValues (Testing.environ p) →
  (∀ n, n = "HOME" ∨ n ∈ names →
        Os.Getenv n (Testing.environ after)
        = Os.Getenv n (Testing.environ p)) ∧
  (∀ n, n ≠ "HOME" → n ∉ names →
        Testing.environ after !! n = Testing.environ p' !! n) ∧
  (∀ n, n = "HOME" ∨ n ∈ names → Testing.environ p !! n = None →
        Testing.environ after !! n = Some "") ∧
  Testing.flags after = Testing.flags p'.
Proof.
  intros names s1 after Hnd Hhome Hvalid Hclean.
  destruct (SetUp_saved JujuHomeEnvKey JujuEnvEnvKey JujuLoggingConfigEnvKey
              JujuFeatureFlagEnvKey J SetJujuHome F parseFlags s p Hnd Hhome)
    as (Hold & Hoh & _ & _).
  rewrite Forall_forall in Hvalid.
  assert (∀ n, n = "HOME" ∨ n ∈ names →
               Testing.environ after !! n
               = Some (Os.Getenv n (Testing.environ p))) as Hback.
  { intros n Hn. subst after. unfold Testing.TearDownTest, Os.SetHome.
    cbn [Testing.environ]. rewrite Setenv_lookup. subst s1.
    destruct Hn as [-> | Hin].
    - rewrite Hoh. rewrite decide_True; [done|].
      split_and!; [done..|]. by apply Getenv_clean.
    - rewrite decide_False by (intros [<- _]; done).
      rewrite restore_loop, Hold.
      rewrite decide_True by done.
      by rewrite (Hvalid n Hin), Getenv_clean. }
  assert (∀ n, n = "HOME" ∨ n ∈ names → n ≠ "") as Hne.
  { intros n [-> | Hin]; [done|]. by apply validKey_not_empty, Hvalid. }
  split_and!.
  - intros n Hn. rewrite (Getenv_lookup n (Testing.environ after)) by auto.
    by rewrite Hback.
  - intros n Hn Hin. subst after. unfold Testing.TearDownTest, Os.SetHome.
    cbn [Testing.environ]. rewrite Setenv_lookup.
    rewrite decide_False by (intros [<- _]; done).
    subst s1. rewrite restore_loop, Hold.
    by rewrite decide_False.
  - intros n Hn Hunset. rewrite Hback by done.
    by rewrite Getenv_lookup, Hunset by auto.
  - done.
Qed.

Lemma SetUpTest_isolates_witness :
  let p1 := (Testing.SetUpTest "JUJU_HOME" "JUJU_ENV" "JUJU_LOGGING_CONFIG"
               "JUJU_DEV_FEATURE_FLAGS" string Testing.swapHome string id
               Testing.freshSuite Testing.someProcess).2 in
  (∀ n, n = "HOME" ∨ n ∈ Testing.jujuKeys →
        Os.Getenv n (Testing.environ p1) = "") ∧
  (∀ n, n ≠ "HOME" → n ∉ Testing.jujuKeys →
        Testing.environ p1 !! n = Testing.environ Testing.someProcess !! n) ∧
  Testing.flags p1 = "".
Proof.
  apply (SetUpTest_isolates "JUJU_HOME" "JUJU_ENV" "JUJU_LOGGING_CONFIG"
           "JUJU_DEV_FEATURE_FLAGS" string Testing.swapHome string id
           Testing.freshSuite Testing.someProcess).
  - unfold Testing.isolated. rewrite !NoDup_cons, !elem_of_cons, !elem_of_nil.
    split_and!; try (intros H; decompose [or] H; (discriminate || contradiction)).
    apply NoDup_nil_2.
  - unfold Testing.isolated. rewrite !elem_of_cons, elem_of_nil.
    intros H; decompose [or] H; (discriminate || contradiction).
  - repeat constructor.
Defined.

Lemma TearDownTest_restores_witness :
  let s1 := (Testing.SetUpTest "JUJU_HOME" "JUJU_ENV" "JUJU_LOGGING_CONFIG"
               "JUJU_DEV_FEATURE_FLAGS" string Testing.swapHome string id
               Testing.freshSuite Testing.someProcess).1 in
  let p' := {| Testing.environ := {[ "JUJU_ENV" := "testing" ]};
               Testing.flags := "storage";
               Testing.jujuHome := "/tmp/check-1" |} in
  let after := Testing.TearDownTest string Testing.swapHome string s1 p' in
  (∀ n, n = "HOME" ∨ n ∈ Testing.jujuKeys →
        Os.Getenv n (Testing.environ after)
        = Os.Getenv n (Testing.environ Testing.someProcess)) ∧
  (∀ n, n ≠ "HOME" → n ∉ Testing.jujuKeys →
        Testing.environ after !! n = Testing.environ p' !! n) ∧
  (∀ n, n = "HOME" ∨ n ∈ Testing.jujuKeys →
        Testing.environ Testing.someProcess !! n = None →
        Testing.environ after !! n = Some "") ∧
  Testing.flags after = "storage".
Proof.
  apply (TearDownTest_restores "JUJU_HOME" "JUJU_ENV" "JUJU_LOGGING_CONFIG"
           "JUJU_DEV_FEATURE_FLAGS" string Testing.swapHome string id
           Testing.freshSuite Testing.someProcess).
  - unfold Testing.isolated. rewrite !NoDup_cons, !elem_of_cons, !elem_of_nil.
    split_and!; try (intros H; decompose [or] H; (discriminate || contradiction)).
    apply NoDup_nil_2.
  - unfold Testing.isolated. rewrite !elem_of_cons, elem_of_nil.
    intros H; decompose [or] H; (discriminate || contradiction).
  - repeat constructor.
  - intros k v. unfold Testing.someProcess. cbn [Testing.environ].
    rewrite !lookup_insert_Some, lookup_singleton_Some.
    intros H; decompose [and or] H; subst; reflexivity.
Defined.

Section FeatureFlags.
Import GoStrings Api.

Lemma noByte_Join (l : list string) :
  noByte "000" (Join l ",") = forallb (noByte "000") l.
Proof.
  induction l as [|e l IH]; [done|]. destruct l as [|e' l].
  - simpl. by rewrite andb_true_r.
  - change (Join (e :: e' :: l) ",") with (e +:+ "," +:+ Join (e' :: l) ",").
    rewrite !noByte_append, IH. cbn [forallb].
    by destruct (noByte "000" e).
Qed.

Lemma forallb_false {A} (f : A → bool) (l : list A) :
  forallb f l = false → ∃ x, x ∈ l ∧ f x = false.
Proof.
  induction l as [|x l IH]; simpl; [done|].
  destruct (f x) eqn:Hx; simpl.
  - intros (y & Hin & Hy)%IH. exists y. split; [by right | done].
  - intros _. exists x. split; [by left | done].
Qed.

End FeatureFlags.

(** X13.  [SetFeatureFlags] panics exactly when [os.Setenv] refuses the
    name of the flag variable or one of the flags has a NUL byte; the
    environment plays no part in it. *)
Theorem SetFeatureFlags_panics
    (JujuFeatureFlagEnvKey : string) (J F : Type) (parseFlags : string → F)
    (flag : list string) (p : Testing.Process J F) :
  Testing.SetFeatureFlags JujuFeatureFlagEnvKey J F parseFlags flag p = None
  ↔ Os.validKey JujuFeatureFlagEnvKey = false
    ∨ ∃ f, f ∈ flag ∧ Api.noByte "000" f = false.
Proof.
  unfold Testing.SetFeatureFlags, Os.Setenv. rewrite noByte_Join.
  destruct (Os.validKey JujuFeatureFlagEnvKey); simpl.
  - destruct (forallb (Api.noByte "000") flag) eqn:Hall.
    + split; [done|]. intros [?|(f & Hin & Hf)]; [done|].
      rewrite forallb_forall in Hall. apply list_elem_of_In in Hin.
      by rewrite (Hall f Hin) in Hf.
    + split; [|done]. intros _. right.
      by apply forallb_false in Hall.
  - split; [by left | done].
Qed.

(** X14.  When [SetFeatureFlags] returns, the flags in force are those
    of the given flags joined by commas, the flag variable holds that
    text, no other variable and not the juju home is changed; and
    [TearDownTest] leaves these flags in force. *)
Theorem SetFeatureFlags_sets
    (JujuFeatureFlagEnvKey : string)
    (J : Type) (SetJujuHome : string → J → string * J)
    (F : Type) (parseFlags : string → F)
    (flag : list string) (p p2 : Testing.Process J F) :
  let joined := GoStrings.Join flag "," in
  Testing.SetFeatureFlags JujuFeatureFlagEnvKey J F parseFlags flag p
  = Some p2 →
  Testing.flags p2 = parseFlags joined ∧
  Os.Getenv JujuFeatureFlagEnvKey (Testing.environ p2) = joined ∧
  (∀ n, n ≠ JujuFeatureFlagEnvKey →
        Testing.environ p2 !! n = Testing.environ p !! n) ∧
  Testing.jujuHome p2 = Testing.jujuHome p ∧
  ∀ s, Testing.flags (Testing.TearDownTest J SetJujuHome F s p2)
       = parseFlags joined.
Proof.
  intros joined. unfold Testing.SetFeatureFlags. fold joined.
  destruct (Os.Setenv JujuFeatureFlagEnvKey joined (Testing.environ p))
    as [[err|] env] eqn:Hset; [done|]. intros [= <-].
  unfold Os.Setenv in Hset.
  destruct (Os.validKey JujuFeatureFlagEnvKey) eqn:Hk; [|done].
  destruct (Api.noByte "000" joined) eqn:Hv; [|done].
  simpl in Hset. injection Hset as <-.
  assert (Os.Getenv JujuFeatureFlagEnvKey
            (<[JujuFeatureFlagEnvKey := joined]> (Testing.environ p))
          = joined) as Hget.
  { rewrite Getenv_lookup by by apply validKey_not_empty.
    by rewrite lookup_insert_eq. }
  unfold Testing.SetFlagsFromEnvironment. cbn [Testing.flags Testing.environ
    Testing.jujuHome Testing.TearDownTest]. rewrite Hget.
  split_and!; try done.
  intros n Hn. by rewrite lookup_insert_ne.
Qed.

Lemma SetFeatureFlags_sets_witness :
  let p2 := {| Testing.environ :=
                 <["JUJU_DEV_FEATURE_FLAGS" := "storage,leases"]>
                   (Testing.environ Testing.someProcess);
               Testing.flags := "storage,leases";
               Testing.jujuHome := "/home/ubuntu/.juju" |} in
  Testing.flags p2 = "storage,leases" ∧
  Os.Getenv "JUJU_DEV_FEATURE_FLAGS" (Testing.environ p2) = "storage,leases" ∧
  (∀ n, n ≠ "JUJU_DEV_FEATURE_FLAGS" →
        Testing.environ p2 !! n = Testing.environ Testing.someProcess !! n) ∧
  Testing.jujuHome p2 = "/home/ubuntu/.juju" ∧
  ∀ s, Testing.flags (Testing.TearDownTest string Testing.swapHome string s p2)
       = "storage,leases".
Proof.
  exact (SetFeatureFlags_sets "JUJU_DEV_FEATURE_FLAGS" string Testing.swapHome
           string id ["storage"; "leases"] Testing.someProcess _ eq_refl).
Defined.

(** ** Fake tools in a storage *)

Section FakeToolsProperties.
Import GoStrings HttpStorage EnvironsTesting.
Context {S : Type} `{StorageOps S}.
Variable Storage_URL : string → S → (string + string) * S.
Variable contents : S → gmap string string.
Hypothesis storage_keeps : keeps Storage_URL contents.

(** The loop of [RemoveTools] on such a storage: the names are gone,
    and no removal fails. *)
Lemma removeOne_loop (names : list string) :
  ∀ (failed : bool) (st : S),
    ∃ st', fold_left removeOne names (failed, st) = (failed, st') ∧
           ∀ n, contents st' !! n =
                if decide (n ∈ names) then None else contents st !! n.
Proof.
  induction names as [|name names IH]; intros failed st.
  { exists st. split; [done|]. intros n.
    by rewrite decide_False by set_solver. }
  destruct (keeps_Remove _ _ storage_keeps name st) as (st1 & Hrm & Hst1).
  destruct (IH failed st1) as (st' & Hloop & Hst').
  exists st'. split.
  - cbn [fold_left]. unfold removeOne at 2. cbn [fst snd].
    by rewrite Hrm.
  - intros n. rewrite Hst', Hst1. destruct (decide (n ∈ names)) as [Hin|Hin].
    + by rewrite decide_True by set_solver.
    + destruct (decide (name = n)) as [->|Hne].
      * rewrite lookup_delete_eq. by rewrite decide_True by set_solver.
      * rewrite lookup_delete_ne by done.
        by rewrite decide_False by set_solver.
Qed.

(** X15.  On a storage that keeps what is put under a name until the
    name is removed, [RemoveTools] goes through without
    stopping the test or marking it failed, and removes exactly the
    names that start with [tools/juju-]. *)
Theorem RemoveTools_removes_the_tools (failed : bool) (st : S) :
  ∃ st',
    RemoveTools failed st = (Some failed, st') ∧
    ∀ n, contents st' !! n =
         if HasPrefix n "tools/juju-" then None else contents st !! n.
Proof.
  unfold RemoveTools.
  destruct (keeps_List _ _ storage_keeps "tools/juju-" st)
    as (names & st0 & -> & Hst0 & Hnames).
  destruct (removeOne_loop names failed st0) as (st' & -> & Hst').
  exists st'. split; [done|]. intros n. rewrite Hst', Hst0.
  destruct (decide (n ∈ names)) as [Hin|Hin].
  - apply Hnames in Hin as [-> _]. done.
  - destruct (HasPrefix n "tools/juju-") eqn:Hp; [|done].
    destruct (contents st !! n) eqn:Hn; [|done].
    exfalso. apply Hin, Hnames. by rewrite Hn.
Qed.

Section Versions.
Variable StorageName : Binary.t → string.
Variable Binary_String : Binary.t → string.
Variable Current : Binary.t.
Variable DefaultSeries : string.

Lemma withSeries_same (vers : Binary.t) :
  withSeries vers (Binary.Series vers) = vers.
Proof. by destruct vers. Qed.

(** On a storage that keeps what is put, the upload of one version
    succeeds and leaves the text of the version under its name. *)
Lemma uploadFakeToolsVersion_keeps (vers : Binary.t) (st : S) :
  ∃ t st',
    uploadFakeToolsVersion Storage_URL StorageName Binary_String vers st
    = (inl t, st') ∧
    Tools.Version t = vers ∧
    contents st' = <[StorageName vers := Binary_String vers]> (contents st).
Proof.
  unfold uploadFakeToolsVersion.
  destruct (keeps_Put _ _ storage_keeps (StorageName vers)
              (Binary_String vers)
              (Z.of_nat (String.length (Binary_String vers))) st)
    as (st1 & -> & Hst1).
  destruct (keeps_URL _ _ storage_keeps (StorageName vers) st1)
    as (r & st2 & -> & Hst2 & Hurl).
  destruct Hurl as [url ->].
  { rewrite Hst1, lookup_insert_eq. by eexists. }
  eexists _, st2. split_and!; [done..|]. by rewrite Hst2.
Qed.

(** X16.  On a storage that keeps what is put under a name until the
    name is removed, [uploadFakeTools] succeeds and leaves fake tools
    for the current version and for the current version in the default
    series, and [RemoveFakeTools] then removes both without marking the
    test failed.  Neither touches another name of the storage. *)
Theorem uploadFakeTools_then_RemoveFakeTools (failed : bool) (st : S) :
  let defaulted := withSeries Current DefaultSeries in
  ∃ st1 st2,
    uploadFakeTools Storage_URL StorageName Binary_String Current
      DefaultSeries st = (None, st1) ∧
    is_Some (contents st1 !! StorageName Current) ∧
    contents st1 !! StorageName defaulted = Some (Binary_String defaulted) ∧
    (∀ n, n ≠ StorageName Current → n ≠ StorageName defaulted →
          contents st1 !! n = contents st !! n) ∧
    RemoveFakeTools StorageName Current DefaultSeries failed st1
    = (failed, st2) ∧
    contents st2 !! StorageName Current = None ∧
    contents st2 !! StorageName defaulted = None ∧
    (∀ n, n ≠ StorageName Current → n ≠ StorageName defaulted →
          contents st2 !! n = contents st !! n).
Proof.
  intros defaulted. unfold uploadFakeTools, RemoveFakeTools.
  destruct (uploadFakeToolsVersion_keeps Current st)
    as (t1 & st1 & -> & _ & Hst1).
  destruct (String.eqb_spec (Binary.Series Current) DefaultSeries)
    as [Hsame | Hother]; cbn [negb].
  - assert (defaulted = Current) as ->
      by (unfold defaulted; rewrite <- Hsame; apply withSeries_same).
    destruct (keeps_Remove _ _ storage_keeps (StorageName Current) st1)
      as (st2 & Hrm & Hst2).
    exists st1, st2. rewrite Hrm, Hst2, Hst1.
    split_and!; try done.
    + by rewrite lookup_insert_eq.
    + by rewrite lookup_insert_eq.
    + intros n Hn _. by rewrite lookup_insert_ne.
    + by rewrite lookup_delete_eq.
    + by rewrite lookup_delete_eq.
    + intros n Hn _. by rewrite lookup_delete_ne, lookup_insert_ne.
  - fold defaulted.
    destruct (uploadFakeToolsVersion_keeps defaulted st1)
      as (t2 & st1' & -> & _ & Hst1').
    destruct (keeps_Remove _ _ storage_keeps (StorageName Current) st1')
      as (st2 & Hrm & Hst2).
    destruct (keeps_Remove _ _ storage_keeps (StorageName defaulted) st2)
      as (st3 & Hrm' & Hst3).
    exists st1', st3. rewrite Hrm, Hrm', Hst3, Hst2, Hst1', Hst1.
    split_and!; try done.
    + destruct (decide (StorageName defaulted = StorageName Current))
        as [->|Hne].
      * by rewrite lookup_insert_eq.
      * by rewrite lookup_insert_ne, lookup_insert_eq.
    + by rewrite lookup_insert_eq.
    + intros n Hn Hn'. by rewrite !lookup_insert_ne.
    + destruct (decide (StorageName defaulted = StorageName Current))
        as [->|Hne].
      * by rewrite lookup_delete_eq.
      * by rewrite lookup_delete_ne, lookup_delete_eq.
    + by rewrite lookup_delete_eq.
    + intros n Hn Hn'. by rewrite !lookup_delete_ne, !lookup_insert_ne.
Qed.

End Versions.

End FakeToolsProperties.

Section MemoryStorage.
Import GoStrings HttpStorage EnvironsTesting.

Lemma memStore_keeps : keeps memURL (λ st : memStore, st).
Proof.
  split.
  - intros name data len st. by eexists.
  - intros name st. unfold memURL.
    destruct (st !! name) eqn:Hn; eexists _, st; (split_and!; [done..|]).
    + intros _. by eexists.
    + by intros [? ?].
  - intros name st. by eexists.
  - intros prefix st. eexists _, st. split_and!; [done..|]. intros n.
    rewrite list_elem_of_filter. split.
    + intros [Hp Hin]. split; [done|].
      apply list_elem_of_fmap in Hin as ([k v] & -> & Hkv).
      apply elem_of_map_to_list in Hkv. by eexists.
    + intros [Hp [v Hv]]. split; [done|].
      apply list_elem_of_fmap. exists (n, v). split; [done|].
      by apply elem_of_map_to_list.
Qed.

End MemoryStorage.

Lemma uploadFakeTools_then_RemoveFakeTools_witness :
  let defaulted :=
    EnvironsTesting.withSeries EnvironsTesting.V100q64 "precise" in
  ∃ st1 st2 : HttpStorage.memStore,
    EnvironsTesting.uploadFakeTools EnvironsTesting.memURL
      EnvironsTesting.storageName EnvironsTesting.binaryString
      EnvironsTesting.V100q64 "precise" EnvironsTesting.someStore
    = (None, st1) ∧
    is_Some (st1 !! EnvironsTesting.storageName EnvironsTesting.V100q64) ∧
    st1 !! EnvironsTesting.storageName defaulted
    = Some (EnvironsTesting.binaryString defaulted) ∧
    (∀ n, n ≠ EnvironsTesting.storageName EnvironsTesting.V100q64 →
          n ≠ EnvironsTesting.storageName defaulted →
          st1 !! n = EnvironsTesting.someStore !! n) ∧
    EnvironsTesting.RemoveFakeTools EnvironsTesting.storageName
      EnvironsTesting.V100q64 "precise" false st1 = (false, st2) ∧
    st2 !! EnvironsTesting.storageName EnvironsTesting.V100q64 = None ∧
    st2 !! EnvironsTesting.storageName defaulted = None ∧
    (∀ n, n ≠ EnvironsTesting.storageName EnvironsTesting.V100q64 →
          n ≠ EnvironsTesting.storageName defaulted →
          st2 !! n = EnvironsTesting.someStore !! n).
Proof.
  exact (uploadFakeTools_then_RemoveFakeTools EnvironsTesting.memURL
           (λ st, st) memStore_keeps
           EnvironsTesting.storageName EnvironsTesting.binaryString
           EnvironsTesting.V100q64 "precise" false EnvironsTesting.someStore).
Defined.

Lemma RemoveTools_removes_the_tools_witness :
  ∃ st' : HttpStorage.memStore,
    EnvironsTesting.RemoveTools false EnvironsTesting.someStore
    = (Some false, st') ∧
    ∀ n, st' !! n =
         if GoStrings.HasPrefix n "tools/juju-" then None
         else EnvironsTesting.someStore !! n.
Proof.
  exact (RemoveTools_removes_the_tools EnvironsTesting.memURL (λ st, st)
           memStore_keeps false EnvironsTesting.someStore).
Defined.
